(** * Trimkart backend: request validation and request handlers

    A shallow embedding of [src/schemas.py] (the pydantic entities) and of
    [src/main.py] (the FastAPI handlers), over a model of the document store
    the handlers talk to, followed by the properties of the handlers.

    Python dictionaries are finite maps from strings ([gmap string _]), a
    collection is the list of its documents in insertion order, handlers are
    computations in a state-and-exception monad over the store. *)

From stdpp Require Import gmap strings list fin_maps sorting.
From Stdlib Require Import ZArith Floats.SpecFloat.
From Stdlib Require QArith Qabs.

Local Open Scope string_scope.
Local Open Scope list_scope.

(** ** Python values *)

(** A [datetime] in UTC, as a count of microseconds. *)
Definition Time := Z.

(** A [bson.ObjectId], by its canonical text: 24 lower-case hex digits. *)
Record ObjectId := mkObjectId { oid_hex : string }.

Global Instance ObjectId_eq_dec : EqDecision ObjectId.
Proof. solve_decision. Defined.

(** The scalar values a stored document holds. *)
Inductive atom :=
  | ANone
  | AStr (s : string)
  | AInt (z : Z)
  | ADate (t : Time)
  | AOid (o : ObjectId).

Global Instance atom_eq_dec : EqDecision atom.
Proof. solve_decision. Defined.

(** A dictionary of scalars: what [TaskUpdateEntry.model_dump()] gives. *)
Abbreviation subdoc := (gmap string atom).

(** A field of a document: a scalar, or a list of embedded dictionaries
    (the [updates] of a task). *)
Inductive value :=
  | VAtom (a : atom)
  | VList (l : list subdoc).

Global Instance value_eq_dec : EqDecision value.
Proof. solve_decision. Defined.

Abbreviation VNone := (VAtom ANone).
Abbreviation VStr s := (VAtom (AStr s)).
Abbreviation VInt z := (VAtom (AInt z)).
Abbreviation VDate t := (VAtom (ADate t)).
Abbreviation VOid o := (VAtom (AOid o)).

(** A Python [dict] with string keys. *)
Abbreviation doc := (gmap string value).

(** [Optional[str]], [Optional[int]], [Optional[datetime]] as values. *)
Definition opt_str (o : option string) : atom :=
  match o with Some s => AStr s | None => ANone end.
Definition opt_int (o : option Z) : atom :=
  match o with Some z => AInt z | None => ANone end.
Definition opt_date (o : option Time) : atom :=
  match o with Some t => ADate t | None => ANone end.

(** ** Truth value testing ([if x:], [not x]) *)

Class Truthy (A : Type) := truthy : A → bool.
Global Hint Mode Truthy ! : typeclass_instances.

Global Instance string_truthy : Truthy string :=
  λ s, match s with EmptyString => false | String _ _ => true end.
Global Instance Z_truthy : Truthy Z := λ z, negb (Z.eqb z 0).
Global Instance nat_truthy : Truthy nat := λ n, negb (Nat.eqb n 0).
Global Instance list_truthy {A} : Truthy (list A) :=
  λ l, match l with [] => false | _ :: _ => true end.
Global Instance dict_truthy {V} : Truthy (gmap string V) :=
  λ d, negb (bool_decide (d = ∅)).
Global Instance option_truthy {A} `{Truthy A} : Truthy (option A) :=
  λ o, match o with Some a => truthy a | None => false end.
(** A [datetime] and an [ObjectId] are always true. *)
Global Instance atom_truthy : Truthy atom :=
  λ a, match a with
       | ANone => false
       | AStr s => truthy s
       | AInt z => truthy z
       | ADate _ => true
       | AOid _ => true
       end.
Global Instance value_truthy : Truthy value :=
  λ v, match v with VAtom a => truthy a | VList l => truthy l end.

(** ** Dictionary operations *)

(** [d.get(k, default)] *)
Definition get_default {V} (k : string) (default : V) (d : gmap string V) : V :=
  match d !! k with Some v => v | None => default end.

(** [d.pop(k)]: the value and the remaining dictionary, [None] for a
    [KeyError]. *)
Definition pop {V} (k : string) (d : gmap string V) : option (V * gmap string V) :=
  match d !! k with Some v => Some (v, delete k d) | None => None end.

(** [d.pop(k, None)], the result dropped. *)
Definition pop_default {V} (k : string) (d : gmap string V) : gmap string V :=
  delete k d.

(** ** External collaborators

    The system clock, the driver's identifier generator, the credential
    verifier (passlib's bcrypt context) and the e-mail syntax checker behind
    [EmailStr] are not part of the repository.  Each is a parameter; the ones
    that are not functions of their arguments alone (the clock, fresh
    identifiers, the salt of a hash) are indexed by the number of such calls
    made so far. *)
Class Collaborators := {
  (** [datetime.now(timezone.utc)] at the n-th call *)
  utcnow : nat → Time;
  (** the [ObjectId] the driver generates at the n-th call *)
  new_object_id : nat → ObjectId;
  (** [pwd_context.hash(secret)] with the salt drawn at the n-th call *)
  pwd_hash : nat → string → string;
  (** [pwd_context.verify(secret, hash)] *)
  pwd_verify : string → value → bool;
  (** [EmailStr]: the normalised address, [None] when malformed *)
  validate_email : string → option string;
  (** [ObjectId(id_str)]: [None] when the driver raises *)
  parse_object_id : string → option ObjectId;
}.

(** ** src/schemas.py: the entities and their validation *)

(** One entry of a pydantic [ValidationError]. *)
Inductive loc_item :=
  | Key (k : string)
  | Index (i : nat).

Record ErrorDetails := mkError { err_type : string; err_loc : list loc_item }.

Global Instance loc_item_eq_dec : EqDecision loc_item.
Proof. solve_decision. Defined.
Global Instance ErrorDetails_eq_dec : EqDecision ErrorDetails.
Proof. solve_decision. Defined.

(** The outcome of validating a field or a model: every violated constraint,
    or the validated value. *)
Definition Validated (A : Type) : Type := list ErrorDetails + A.

Definition v_fail {A} (ty : string) (loc : list loc_item) : Validated A :=
  inl [mkError ty loc].

(** Errors of all fields are collected, in field order. *)
Definition v_ap {A B} (f : Validated (A → B)) (a : Validated A) : Validated B :=
  match f, a with
  | inr g, inr x => inr (g x)
  | inl e, inr _ => inl e
  | inr _, inl e => inl e
  | inl e1, inl e2 => inl (e1 ++ e2)
  end.

Infix "<*>" := v_ap (at level 50, left associativity).

(** The errors of an outcome ([[]] when it is valid). *)
Definition errors_of {A} (v : Validated A) : list ErrorDetails :=
  match v with inl e => e | inr _ => [] end.

(** A field declared without a default ([x: T], [Field(...)]). *)
Definition required {A} (loc : list loc_item) (o : option A) : Validated A :=
  match o with Some a => inr a | None => v_fail "missing" loc end.

(** [Field(..., ge=lo, le=hi)] on an integer. *)
Definition ge_le (lo hi : Z) (loc : list loc_item) (z : Z) : Validated Z :=
  if (z <? lo)%Z then v_fail "greater_than_equal" loc
  else if (hi <? z)%Z then v_fail "less_than_equal" loc
  else inr z.

(** A [Literal[...]] of strings. *)
Definition literal (allowed : list string) (loc : list loc_item) (s : string)
  : Validated string :=
  if bool_decide (s ∈ allowed) then inr s else v_fail "literal_error" loc.

Definition RoleType : list string := ["MD"; "CEO"; "COO"; "MANAGER"; "EMPLOYEE"].
Definition TaskStatus : list string := ["PENDING"; "IN_PROGRESS"; "COMPLETED"].

(** [EmailStr] *)
Definition email_str `{Collaborators} (loc : list loc_item) (s : string)
  : Validated string :=
  match validate_email s with
  | Some e => inr e
  | None => v_fail "value_error" loc
  end.

(** Each element of a list field, with its index in the error location. *)
Fixpoint v_list {A B} (f : list loc_item → A → Validated B)
    (loc : list loc_item) (i : nat) (l : list A) : Validated (list B) :=
  match l with
  | [] => inr []
  | a :: l' => inr cons <*> f (loc ++ [Index i]) a <*> v_list f loc (S i) l'
  end.

(** In the [input] records below a field is [None] when the request body has
    no such key (for an [Optional] field: also when it is [null]); the JSON
    types of the values present are those of the annotations. *)

Module UserRegister.
Record input := mkInput {
  in_name : option string;
  in_email : option string;
  in_password : option string;
  in_role : option string;
  in_department_id : option string;
}.
Record t := mk {
  name : string;
  email : string;
  password : string;
  role : string;
  department_id : option string;
}.
Definition validate `{Collaborators} (i : input) : Validated t :=
  inr mk
    <*> required [Key "name"] (in_name i)
    <*> match in_email i with
        | Some e => email_str [Key "email"] e
        | None => v_fail "missing" [Key "email"]
        end
    <*> required [Key "password"] (in_password i)
    <*> match in_role i with
        | Some r => literal RoleType [Key "role"] r
        | None => inr "EMPLOYEE"
        end
    <*> inr (in_department_id i).
End UserRegister.

Module UserLogin.
Record input := mkInput {
  in_email : option string;
  in_password : option string;
}.
Record t := mk {
  email : string;
  password : string;
}.
Definition validate `{Collaborators} (i : input) : Validated t :=
  inr mk
    <*> match in_email i with
        | Some e => email_str [Key "email"] e
        | None => v_fail "missing" [Key "email"]
        end
    <*> required [Key "password"] (in_password i).
End UserLogin.

Module TaskUpdateEntry.
Record input := mkInput {
  in_user_id : option string;
  in_note : option string;
  in_progress : option Z;
  in_created_at : option Time;
}.
Record t := mk {
  user_id : string;
  note : option string;
  progress : option Z;
  created_at : option Time;
}.
Definition validate_at (loc : list loc_item) (i : input) : Validated t :=
  inr mk
    <*> required (loc ++ [Key "user_id"]) (in_user_id i)
    <*> inr (in_note i)
    <*> match in_progress i with
        | Some p => inr Some <*> ge_le 0 100 (loc ++ [Key "progress"]) p
        | None => inr None
        end
    <*> inr (in_created_at i).
Definition validate : input → Validated t := validate_at [].
Definition model_dump (e : t) : subdoc :=
  {[ "user_id" := AStr (user_id e);
     "note" := opt_str (note e);
     "progress" := opt_int (progress e);
     "created_at" := opt_date (created_at e) ]}.
End TaskUpdateEntry.

Module Task.
Record input := mkInput {
  in_title : option string;
  in_description : option string;
  in_assigned_to : option string;
  in_assigned_by : option string;
  in_department_id : option string;
  in_status : option string;
  in_due_date : option Time;
  in_progress : option Z;
  in_updates : option (list TaskUpdateEntry.input);
}.
Record t := mk {
  title : string;
  description : option string;
  assigned_to : string;
  assigned_by : string;
  department_id : option string;
  status : string;
  due_date : option Time;
  progress : Z;
  updates : list TaskUpdateEntry.t;
}.
Definition validate (i : input) : Validated t :=
  inr mk
    <*> required [Key "title"] (in_title i)
    <*> inr (in_description i)
    <*> required [Key "assigned_to"] (in_assigned_to i)
    <*> required [Key "assigned_by"] (in_assigned_by i)
    <*> inr (in_department_id i)
    <*> match in_status i with
        | Some s => literal TaskStatus [Key "status"] s
        | None => inr "PENDING"
        end
    <*> inr (in_due_date i)
    <*> match in_progress i with
        | Some p => ge_le 0 100 [Key "progress"] p
        | None => inr 0%Z
        end
    <*> match in_updates i with
        | Some l => v_list TaskUpdateEntry.validate_at [Key "updates"] 0 l
        | None => inr []
        end.
Definition model_dump (x : t) : doc :=
  {[ "title" := VStr (title x);
     "description" := VAtom (opt_str (description x));
     "assigned_to" := VStr (assigned_to x);
     "assigned_by" := VStr (assigned_by x);
     "department_id" := VAtom (opt_str (department_id x));
     "status" := VStr (status x);
     "due_date" := VAtom (opt_date (due_date x));
     "progress" := VInt (progress x);
     "updates" := VList (TaskUpdateEntry.model_dump <$> updates x) ]}.
End Task.

Module Department.
Record input := mkInput {
  in_name : option string;
  in_description : option string;
  in_manager_user_id : option string;
}.
Record t := mk {
  name : string;
  description : option string;
  manager_user_id : option string;
}.
Definition validate (i : input) : Validated t :=
  inr mk
    <*> required [Key "name"] (in_name i)
    <*> inr (in_description i)
    <*> inr (in_manager_user_id i).
Definition model_dump (x : t) : doc :=
  {[ "name" := VStr (name x);
     "description" := VAtom (opt_str (description x));
     "manager_user_id" := VAtom (opt_str (manager_user_id x)) ]}.
End Department.

Module User.
Record input := mkInput {
  in_name : option string;
  in_email : option string;
  in_role : option string;
  in_department_id : option string;
}.
Record t := mk {
  name : string;
  email : string;
  role : string;
  department_id : option string;
}.
Definition validate `{Collaborators} (i : input) : Validated t :=
  inr mk
    <*> required [Key "name"] (in_name i)
    <*> match in_email i with
        | Some e => email_str [Key "email"] e
        | None => v_fail "missing" [Key "email"]
        end
    <*> match in_role i with
        | Some r => literal RoleType [Key "role"] r
        | None => inr "EMPLOYEE"
        end
    <*> inr (in_department_id i).
End User.

(** ** The document store *)

(** A collection: its documents in insertion order, each under the
    identifier the store keeps in its [_id] field. *)
Abbreviation collection := (list (ObjectId * doc)).

(** The dictionary the driver hands out for a stored document. *)
Definition to_dict (s : ObjectId * doc) : doc := <["_id" := VOid s.1]> s.2.

(** Modelled from the spec: the query filter of the Document Store Adapter
    ([database.py] and the driver behind it are not in the repository): a
    document matches when it has every field of the filter with an equal
    value; the empty filter matches every document. *)
Definition matches (query d : doc) : bool :=
  bool_decide (map_Forall (λ k v, d !! k = Some v) query).

(** Modelled from the spec: [find] of the Document Store Adapter, the
    matching documents in store order. *)
Definition find (query : doc) (c : collection) : list doc :=
  to_dict <$> filter (λ s, matches query (to_dict s)) c.

(** Modelled from the spec: [find_one] of the Document Store Adapter, the
    first matching document. *)
Definition find_one (query : doc) (c : collection) : option doc :=
  head (find query c).

(** Modelled from the spec: [count_documents] of the Document Store
    Adapter. *)
Definition count_documents (query : doc) (c : collection) : nat :=
  length (find query c).

(** Modelled from the spec: [insert_one] of the Document Store Adapter; the
    documents the handlers insert carry no [_id], the store files them under
    a generated one. *)
Definition insert_one (i : ObjectId) (d : doc) (c : collection) : collection :=
  c ++ [(i, d)].

(** The update operators the handlers use: [$set] of some fields and at most
    one [$push]. *)
Record update := mkUpdate {
  op_set : doc;
  op_push : option (string * subdoc);
}.

(** [$push]: append to the array under the key; a missing key starts a new
    array; anything else under the key is a write error. *)
Definition apply_push (p : option (string * subdoc)) (d : doc) : option doc :=
  match p with
  | None => Some d
  | Some (k, e) =>
      match d !! k with
      | None => Some (<[k := VList [e]]> d)
      | Some (VList l) => Some (<[k := VList (l ++ [e])]> d)
      | Some (VAtom _) => None
      end
  end.

(** Both operators are applied to the one document, or neither. *)
Definition apply_update (u : update) (d : doc) : option doc :=
  d' ← apply_push (op_push u) d; Some (op_set u ∪ d').

(** Modelled from the spec: [update_one] of the Document Store Adapter, an
    atomic update of the first matching document; the result is
    [matched_count] and the collection, [None] for a write error. *)
Fixpoint update_one (query : doc) (u : update) (c : collection)
  : option (nat * collection) :=
  match c with
  | [] => Some (0, [])
  | s :: c' =>
      if matches query (to_dict s)
      then d' ← apply_update u s.2; Some (1, (s.1, d') :: c')
      else r ← update_one query u c'; Some (r.1, s :: r.2)
  end.

(** The store's order on the values of a sort key; a missing field sorts
    with [null]. *)
Definition bson_rank (v : option value) : nat :=
  match v with
  | None | Some VNone => 1
  | Some (VInt _) => 2
  | Some (VStr _) => 3
  | Some (VList _) => 5
  | Some (VOid _) => 7
  | Some (VDate _) => 9
  end.

Definition bson_ltb (a b : option value) : bool :=
  match a, b with
  | Some (VInt x), Some (VInt y) => (x <? y)%Z
  | Some (VStr x), Some (VStr y) => String.ltb x y
  | Some (VOid x), Some (VOid y) => String.ltb (oid_hex x) (oid_hex y)
  | Some (VDate x), Some (VDate y) => (x <? y)%Z
  | _, _ => (bson_rank a <? bson_rank b)%nat
  end.

Fixpoint insert_desc (key : string) (x : doc) (l : list doc) : list doc :=
  match l with
  | [] => [x]
  | y :: l' =>
      if bson_ltb (x !! key) (y !! key) then y :: insert_desc key x l'
      else x :: l
  end.

(** Modelled from the spec: [sort(key, -1)] of the Document Store Adapter,
    descending on the key, documents with equal keys in store order. *)
Definition sort_desc (key : string) (l : list doc) : list doc :=
  foldr (insert_desc key) [] l.

Fixpoint insert_asc (key : string) (x : doc) (l : list doc) : list doc :=
  match l with
  | [] => [x]
  | y :: l' =>
      if bson_ltb (y !! key) (x !! key) then y :: insert_asc key x l'
      else x :: l
  end.

(** Modelled from the spec: [sort(key)] of the Document Store Adapter,
    ascending on the key, documents with equal keys in store order. *)
Definition sort_asc (key : string) (l : list doc) : list doc :=
  foldr (insert_asc key) [] l.

(** ** Handlers as computations over the store *)

(** What a handler runs against: the database [db] (collections by name, a
    collection never written to is empty) and the number of calls made so
    far to the clock, the identifier generator and the hasher. *)
Record World := mkWorld {
  db : gmap string collection;
  ticks : nat;
}.

(** [db[name]] *)
Definition coll (name : string) (w : World) : collection :=
  default [] (db w !! name).

Definition set_coll (name : string) (c : collection) (w : World) : World :=
  {| db := <[name := c]> (db w); ticks := ticks w |}.

Definition tick (w : World) : World :=
  {| db := db w; ticks := S (ticks w) |}.

(** What a handler raises.  FastAPI answers an [HTTPException] with its
    status code and detail, a [RequestValidationError] with 422 and anything
    else with 500.  [Unmodelled] stands for Python behaviour this model does
    not describe; no handler reaches it on the documents of a store. *)
Inductive exn :=
  | HTTPException (status_code : Z) (detail : string)
  | RequestValidationError (errors : list ErrorDetails)
  | KeyError (k : string)
  | WriteError
  | Unmodelled.

(** The bodies of the successful responses. *)
Record Overview := mkOverview {
  users : nat;
  tasks : nat;
  completed : nat;
  in_progress : nat;
  pending : nat;
  completion_rate : spec_float;
}.

Inductive response :=
  | Message (message : string)
  | Id (id : string)
  | IdMessage (id : string) (message : string)
  | MessageUser (message : string) (user : doc)
  | Docs (l : list doc)
  | Analytics (o : Overview).

(** A computation returns or raises, and leaves a store behind either way. *)
Definition M (A : Type) : Type := World → (exn + A) * World.

Definition ret {A} (a : A) : M A := λ w, (inr a, w).
Definition raise {A} (e : exn) : M A := λ w, (inl e, w).
Definition bind {A B} (c : M A) (k : A → M B) : M B :=
  λ w, match c w with
       | (inr a, w') => k a w'
       | (inl e, w') => (inl e, w')
       end.

Notation "x <- c ;; k" := (bind c (λ x, k))
  (at level 100, c at next level, right associativity).

(** A [for] loop that rebuilds each element of a list. *)
Fixpoint for_each {A B} (f : A → M B) (l : list A) : M (list B) :=
  match l with
  | [] => ret []
  | a :: l' => b <- f a ;; bs <- for_each f l' ;; ret (b :: bs)
  end.

(** *** IEEE 754 binary64 arithmetic on the counts *)

(** An [int] as the float operand it stands for. *)
Definition float_of_int (n : Z) : spec_float :=
  match n with
  | Z0 => S754_zero false
  | Zpos p => S754_finite false p 0
  | Zneg p => S754_finite true p 0
  end.

(** [a / b] on two [int]s: the quotient rounded to the nearest float. *)
Definition truediv (a b : Z) : spec_float :=
  SFdiv 53 1024 (float_of_int a) (float_of_int b).

(** [x * n] for a float [x] and an [int] [n]. *)
Definition fmul_int (x : spec_float) (n : Z) : spec_float :=
  SFmul 53 1024 x (float_of_int n).

(** *** src/main.py *)

Section main.
Context `{Collaborators}.

Definition now : M Time := λ w, (inr (utcnow (ticks w)), tick w).

Definition hash (secret : string) : M string :=
  λ w, (inr (pwd_hash (ticks w) secret), tick w).

Definition db_find_one (name : string) (query : doc) : M (option doc) :=
  λ w, (inr (find_one query (coll name w)), w).

Definition db_find (name : string) (query : doc) : M (list doc) :=
  λ w, (inr (find query (coll name w)), w).

Definition db_count_documents (name : string) (query : doc) : M nat :=
  λ w, (inr (count_documents query (coll name w)), w).

Definition db_insert_one (name : string) (d : doc) : M ObjectId :=
  λ w, let i := new_object_id (ticks w) in
       (inr i, tick (set_coll name (insert_one i d (coll name w)) w)).

(** The result is the [matched_count]. *)
Definition db_update_one (name : string) (query : doc) (u : update) : M nat :=
  λ w, match update_one query u (coll name w) with
       | Some (n, c) => (inr n, set_coll name c w)
       | None => (inl WriteError, w)
       end.

(** [str(x)] of an [ObjectId] (its hex digits) or a string; the text of
    other values is not described. *)
Definition str (v : value) : M string :=
  match v with
  | VOid o => ret (oid_hex o)
  | VStr s => ret s
  | _ => raise Unmodelled
  end.

Definition oid (id_str : string) : M ObjectId :=
  match parse_object_id id_str with
  | Some o => ret o
  | None => raise (HTTPException 400 "Invalid id format")
  end.

Definition get_user_by_email (email : string) : M (option doc) :=
  db_find_one "user" {[ "email" := VStr email ]}.

Definition register (payload : UserRegister.t) : M response :=
  existing <- get_user_by_email (UserRegister.email payload) ;;
  if truthy existing
  then raise (HTTPException 400 "Email already registered")
  else
    hashed <- hash (UserRegister.password payload) ;;
    created_at <- now ;;
    updated_at <- now ;;
    let doc : doc :=
      {[ "name" := VStr (UserRegister.name payload);
         "email" := VStr (UserRegister.email payload);
         "password_hash" := VStr hashed;
         "role" := VStr (UserRegister.role payload);
         "department_id" := VAtom (opt_str (UserRegister.department_id payload));
         "created_at" := VDate created_at;
         "updated_at" := VDate updated_at ]} in
    inserted_id <- db_insert_one "user" doc ;;
    ret (IdMessage (oid_hex inserted_id) "Registered successfully").

(** [d["id"] = str(d.pop("_id"))] *)
Definition rename_id (d : doc) : M doc :=
  match pop "_id" d with
  | Some (v, d') => s <- str v ;; ret (<["id" := VStr s]> d')
  | None => raise (KeyError "_id")
  end.

Definition login (payload : UserLogin.t) : M response :=
  user <- get_user_by_email (UserLogin.email payload) ;;
  match user with
  | None => raise (HTTPException 401 "Invalid credentials")
  | Some user =>
      if negb (truthy user)
         || negb (pwd_verify (UserLogin.password payload)
                    (get_default "password_hash" (VStr "") user))
      then raise (HTTPException 401 "Invalid credentials")
      else
        user <- rename_id user ;;
        let user := pop_default "password_hash" user in
        ret (MessageUser "Login successful" user)
  end.

(** [if x: query[k] = x] for an optional string parameter. *)
Definition add_filter (k : string) (x : option string) (query : doc) : doc :=
  match x with
  | Some s => if truthy s then <[k := VStr s]> query else query
  | None => query
  end.

Definition list_users (role department_id : option string) : M response :=
  let query : doc := ∅ in
  let query := add_filter "role" role query in
  let query := add_filter "department_id" department_id query in
  users <- db_find "user" query ;;
  users <- for_each (λ u, u <- rename_id u ;;
                          ret (pop_default "password_hash" u)) users ;;
  ret (Docs users).

Definition root : M response := ret (Message "Trimkart backend is running").

Definition create_department (dep : Department.t) : M response :=
  let data := Department.model_dump dep in
  created_at <- now ;;
  updated_at <- now ;;
  inserted_id <- db_insert_one "department"
    (<["updated_at" := VDate updated_at]>
       (<["created_at" := VDate created_at]> data)) ;;
  ret (Id (oid_hex inserted_id)).

Definition list_departments : M response :=
  deps <- db_find "department" ∅ ;;
  let deps := sort_asc "name" deps in
  deps <- for_each rename_id deps ;;
  ret (Docs deps).

Definition create_task (task : Task.t) : M response :=
  let data := Task.model_dump task in
  created_at <- now ;;
  let data := <["created_at" := VDate created_at]> data in
  updated_at <- now ;;
  let data := <["updated_at" := VDate updated_at]> data in
  inserted_id <- db_insert_one "task" data ;;
  ret (Id (oid_hex inserted_id)).

Definition list_tasks (status assigned_to department_id : option string)
  : M response :=
  let query : doc := ∅ in
  let query := add_filter "status" status query in
  let query := add_filter "assigned_to" assigned_to query in
  let query := add_filter "department_id" department_id query in
  tasks <- db_find "task" query ;;
  let tasks := sort_desc "created_at" tasks in
  tasks <- for_each rename_id tasks ;;
  ret (Docs tasks).

Definition add_task_update (task_id : string) (update : TaskUpdateEntry.t)
  : M response :=
  let upd := TaskUpdateEntry.model_dump update in
  upd <- (if negb (truthy (upd !! "created_at"))
          then t <- now ;; ret (<["created_at" := ADate t]> upd)
          else ret upd) ;;
  o <- oid task_id ;;
  t <- now ;;
  matched_count <- db_update_one "task" {[ "_id" := VOid o ]}
    {| op_push := Some ("updates", upd);
       op_set := {[ "updated_at" := VDate t ]} |} ;;
  if (matched_count =? 0)%nat
  then raise (HTTPException 404 "Task not found")
  else ret (Message "Update added").

Definition set_task_status (task_id : string) (status : string) : M response :=
  if negb (bool_decide (status ∈ ["PENDING"; "IN_PROGRESS"; "COMPLETED"]))
  then raise (HTTPException 400 "Invalid status")
  else
    o <- oid task_id ;;
    t <- now ;;
    matched_count <- db_update_one "task" {[ "_id" := VOid o ]}
      {| op_push := None;
         op_set := {[ "status" := VStr status; "updated_at" := VDate t ]} |} ;;
    if (matched_count =? 0)%nat
    then raise (HTTPException 404 "Task not found")
    else ret (Message "Status updated").

Definition analytics_overview : M response :=
  total_users <- db_count_documents "user" ∅ ;;
  total_tasks <- db_count_documents "task" ∅ ;;
  completed <- db_count_documents "task" {[ "status" := VStr "COMPLETED" ]} ;;
  in_progress <- db_count_documents "task" {[ "status" := VStr "IN_PROGRESS" ]} ;;
  pending <- db_count_documents "task" {[ "status" := VStr "PENDING" ]} ;;
  ret (Analytics
    {| users := total_users;
       tasks := total_tasks;
       completed := completed;
       in_progress := in_progress;
       pending := pending;
       completion_rate :=
         if truthy total_tasks
         then fmul_int (truediv (Z.of_nat completed) (Z.of_nat total_tasks)) 100
         else S754_zero false |}).

(** A route with a request body: the body is validated first, and the
    handler runs only on a valid entity. *)
Definition with_body {I T} (validate : I → Validated T)
    (handler : T → M response) (body : I) : M response :=
  match validate body with
  | inr x => handler x
  | inl errors => raise (RequestValidationError errors)
  end.

Definition post_auth_register : UserRegister.input → M response :=
  with_body UserRegister.validate register.
Definition post_auth_login : UserLogin.input → M response :=
  with_body UserLogin.validate login.
Definition post_tasks : Task.input → M response :=
  with_body Task.validate create_task.
Definition post_departments : Department.input → M response :=
  with_body Department.validate create_department.
Definition post_tasks_update (task_id : string)
  : TaskUpdateEntry.input → M response :=
  with_body TaskUpdateEntry.validate (add_task_update task_id).

End main.

(** *** The diagnostic route *)

(** The handle [db] that [database.py] exports, when there is one: its
    [name] attribute, when it has one, and what [list_collection_names()]
    gives, the names or the text of the exception it raises.  Texts are
    sequences of characters, one [ascii] each. *)
Record Database := mkDatabase {
  name_attribute : option string;
  list_collection_names : string + list string;
}.

(** The dictionary [test_database] fills in; its keys are fixed. *)
Record Diagnostics := mkDiagnostics {
  backend : string;
  database : string;
  database_url : option string;
  database_name : option string;
  connection_status : string;
  collections : list string;
}.

Definition set_database (v : string) (r : Diagnostics) : Diagnostics :=
  mkDiagnostics (backend r) v (database_url r) (database_name r)
    (connection_status r) (collections r).
Definition set_database_url (v : option string) (r : Diagnostics) : Diagnostics :=
  mkDiagnostics (backend r) (database r) v (database_name r)
    (connection_status r) (collections r).
Definition set_database_name (v : option string) (r : Diagnostics) : Diagnostics :=
  mkDiagnostics (backend r) (database r) (database_url r) v
    (connection_status r) (collections r).
Definition set_connection_status (v : string) (r : Diagnostics) : Diagnostics :=
  mkDiagnostics (backend r) (database r) (database_url r) (database_name r)
    v (collections r).
Definition set_collections (v : list string) (r : Diagnostics) : Diagnostics :=
  mkDiagnostics (backend r) (database r) (database_url r) (database_name r)
    (connection_status r) v.

(** [test_database], over the handle and [os.getenv].  Nothing in the outer
    [try] block raises outside the inner one, so the outer [except] branch
    has no counterpart here. *)
Definition test_database (handle : option Database)
    (getenv : string → option string) : Diagnostics :=
  let response :=
    {| backend := "✅ Running";
       database := "❌ Not Available";
       database_url := None;
       database_name := None;
       connection_status := "Not Connected";
       collections := [] |} in
  let response :=
    match handle with
    | Some h =>
        let response := set_database "✅ Available" response in
        let response := set_database_url (Some "✅ Configured") response in
        let response :=
          set_database_name
            (Some (default "✅ Connected" (name_attribute h))) response in
        let response := set_connection_status "Connected" response in
        match list_collection_names h with
        | inr names =>
            let response := set_collections (take 10 names) response in
            set_database "✅ Connected & Working" response
        | inl e =>
            set_database
              ("⚠️  Connected but Error: " +:+ String.substring 0 50 e)
              response
        end
    | None => set_database "⚠️  Available but not initialized" response
    end in
  let response :=
    set_database_url
      (Some (if truthy (getenv "DATABASE_URL") then "✅ Set" else "❌ Not Set"))
      response in
  let response :=
    set_database_name
      (Some (if truthy (getenv "DATABASE_NAME") then "✅ Set" else "❌ Not Set"))
      response in
  response.

(** ** What the properties are stated with *)

(** Some stored user has exactly this e-mail address. *)
Definition email_taken (e : string) (c : collection) : Prop :=
  ∃ s, s ∈ c ∧ s.2 !! "email" = Some (VStr e).

(** No two users share an e-mail address. *)
Definition unique_emails (c : collection) : Prop :=
  ∀ i j s1 s2 v,
    c !! i = Some s1 → c !! j = Some s2 →
    s1.2 !! "email" = Some v → s2.2 !! "email" = Some v → i = j.

(** The document [register] stores for a payload, in the store [w]. *)
Definition registered_doc `{Collaborators} (payload : UserRegister.t) (w : World) : doc :=
  {[ "name" := VStr (UserRegister.name payload);
     "email" := VStr (UserRegister.email payload);
     "password_hash" :=
       VStr (pwd_hash (ticks w) (UserRegister.password payload));
     "role" := VStr (UserRegister.role payload);
     "department_id" := VAtom (opt_str (UserRegister.department_id payload));
     "created_at" := VDate (utcnow (1 + ticks w));
     "updated_at" := VDate (utcnow (2 + ticks w)) ]}.

(** The entry [add_task_update] appends for an update, in the store [w]:
    the update as dumped, with the clock's reading as [created_at] when the
    caller gave none. *)
Definition appended_entry `{Collaborators} (update : TaskUpdateEntry.t)
    (w : World) : subdoc :=
  match TaskUpdateEntry.created_at update with
  | Some _ => TaskUpdateEntry.model_dump update
  | None =>
      <["created_at" := ADate (utcnow (ticks w))]>
        (TaskUpdateEntry.model_dump update)
  end.

(** The document [create_task] stores for a task, in the store [w]. *)
Definition created_task_doc `{Collaborators} (task : Task.t) (w : World) : doc :=
  <["updated_at" := VDate (utcnow (1 + ticks w))]>
    (<["created_at" := VDate (utcnow (ticks w))]> (Task.model_dump task)).

(** The document [create_department] stores for a department. *)
Definition created_department_doc `{Collaborators} (dep : Department.t)
    (w : World) : doc :=
  <["updated_at" := VDate (utcnow (1 + ticks w))]>
    (<["created_at" := VDate (utcnow (ticks w))]> (Department.model_dump dep)).

(** A stored task in good shape: a status of the three, a progress from 0
    to 100, a list of updates. *)
Definition task_ok (d : doc) : Prop :=
  (∃ st, st ∈ TaskStatus ∧ d !! "status" = Some (VStr st))
  ∧ (∃ p, (0 ≤ p ≤ 100)%Z ∧ d !! "progress" = Some (VInt p))
  ∧ (∃ us, d !! "updates" = Some (VList us)).

Definition tasks_ok (w : World) : Prop :=
  ∀ s, s ∈ coll "task" w → task_ok s.2.

(** The progress of an update entry, when it has one, is from 0 to 100. *)
Definition entry_ok (e : TaskUpdateEntry.t) : Prop :=
  match TaskUpdateEntry.progress e with
  | Some p => (0 ≤ p ≤ 100)%Z
  | None => True
  end.

(** [a] does not sort before [b] on the key: what holds of a document and
    any later one in a descending listing. *)
Definition not_before (key : string) (a b : doc) : Prop :=
  bson_ltb (a !! key) (b !! key) = false.


(** The rational number a finite float stands for. *)
Definition float_value (x : spec_float) : option QArith_base.Q :=
  match x with
  | S754_zero _ => Some (QArith_base.inject_Z 0)
  | S754_finite s m e =>
      Some (QArith_base.Qmult
              (QArith_base.inject_Z (if s then Zneg m else Zpos m))
              (QArith_base.Qpower (QArith_base.inject_Z 2) e))
  | S754_infinity _ => None
  | S754_nan => None
  end.

(** [x] is a number, at most [2^-46] away from the fraction
    [100 * c / t]. *)
Definition near_percentage (x : spec_float) (c t : nat) : Prop :=
  ∃ v, float_value x = Some v
       ∧ QArith_base.Qle
           (Qabs.Qabs (QArith_base.Qminus v
              (QArith_base.Qmake (100 * Z.of_nat c) (Pos.of_nat t))))
           (QArith_base.Qmake 1 (2 ^ 46)).

(** The same as a test, on the binary64 value of [c / t * 100] for the
    counts [c] and [t] taken as exact operands. *)
Definition near_percentage_test (c t : nat) : bool :=
  let operand (n : nat) :=
    match n with
    | 0 => S754_zero false
    | S _ => S754_finite false (Pos.of_nat n) 0
    end in
  match float_value
          (SFmul 53 1024 (SFdiv 53 1024 (operand c) (operand t))
             (S754_finite false 100 0)) with
  | Some v =>
      QArith_base.Qle_bool
        (Qabs.Qabs (QArith_base.Qminus v
           (QArith_base.Qmake (100 * Z.of_nat c) (Pos.of_nat t))))
        (QArith_base.Qmake 1 (2 ^ 46))
  | None => false
  end.


(** The user a lookup by e-mail address finds: the first one in store
    order. *)
Definition user_with_email (e : string) (c : collection)
  : option (ObjectId * doc) :=
  head (filter (λ s, s.2 !! "email" = Some (VStr e)) c).

(** The hash a stored user verifies passwords against. *)
Definition stored_hash (s : ObjectId * doc) : value :=
  get_default "password_hash" (VStr "") s.2.

(** A stored document as the API returns it: [_id] gone, its text under
    [id]. *)
Definition exposed (s : ObjectId * doc) : doc :=
  <["id" := VStr (oid_hex s.1)]> (delete "_id" s.2).

(** The same, on the dictionary the driver handed out. *)
Definition exposed_dict (d : doc) : doc :=
  match d !! "_id" with
  | Some (VOid o) => <["id" := VStr (oid_hex o)]> (delete "_id" d)
  | _ => d
  end.

(** A dictionary that carries an [ObjectId] under [_id]. *)
Definition has_object_id (d : doc) : Prop :=
  ∃ o, d !! "_id" = Some (VOid o).

(** A stored user as the API returns it: as above, and without the hash. *)
Definition public_user (s : ObjectId * doc) : doc :=
  delete "password_hash" (exposed s).

(** What a filter parameter demands of a stored document: nothing when it is
    absent or empty, an equal field otherwise. *)
Definition satisfies (k : string) (x : option string) (s : ObjectId * doc)
  : Prop :=
  match x with
  | Some (String a r) => s.2 !! k = Some (VStr (String a r))
  | _ => True
  end.

Global Instance satisfies_dec k x s : Decision (satisfies k x s).
Proof. destruct x as [[|a r]|]; simpl; apply _. Defined.

(** The reading of a filter parameter by its words: a supplied value,
    whatever it is, demands an equal field. *)
Definition equals_supplied (k : string) (x : option string)
    (s : ObjectId * doc) : Prop :=
  match x with
  | Some v => s.2 !! k = Some (VStr v)
  | None => True
  end.

Global Instance equals_supplied_dec k x s : Decision (equals_supplied k x s).
Proof. destruct x; simpl; apply _. Defined.

(** The errors a validation outcome reports at one location. *)
Definition errors_at {A} (loc : list loc_item) (v : Validated A)
  : list ErrorDetails :=
  filter (λ e, err_loc e = loc) (errors_of v).

(** The number of stored tasks in a given status. *)
Definition count_status (st : string) (c : collection) : nat :=
  length (filter (λ s, s.2 !! "status" = Some (VStr st)) c).

(** ** Stand-ins for the collaborators, for running the handlers *)

Module stub.

Definition hex_digits : string := "0123456789abcdef".

Definition is_hex (a : Ascii.ascii) : bool :=
  bool_decide (a ∈ String.list_ascii_of_string hex_digits).

Definition hex_digit (n : nat) : string :=
  match String.get n hex_digits with
  | Some a => String a ""
  | None => "0"
  end.

(** Identifiers [00…00], [00…01], … *)
Definition object_id (n : nat) : ObjectId :=
  mkObjectId ("0000000000000000000000" +:+ hex_digit (n / 16 mod 16)
                +:+ hex_digit (n mod 16)).

Definition parse (s : string) : option ObjectId :=
  if (String.length s =? 24)%nat && forallb is_hex (String.list_ascii_of_string s)
  then Some (mkObjectId s) else None.

Definition hash_of (salt : nat) (secret : string) : string :=
  "$2b$12$" +:+ hex_digit (salt mod 16) +:+ "$" +:+ secret.

Definition verify (secret : string) (h : value) : bool :=
  match h with
  | VStr (String _ (String _ (String _ (String _ (String _ (String _
      (String _ (String _ (String _ rest))))))))) =>
      bool_decide (rest = secret)
  | _ => false
  end.

Definition check_email (s : string) : option string :=
  match String.index 0 "@" s with Some _ => Some s | None => None end.

Definition collaborators : Collaborators :=
  {| utcnow n := (1700000000000000 + Z.of_nat n)%Z;
     new_object_id := object_id;
     pwd_hash := hash_of;
     pwd_verify := verify;
     validate_email := check_email;
     parse_object_id := parse |}.

Definition empty_world : World := {| db := ∅; ticks := 0 |}.

Definition ann : UserRegister.t :=
  UserRegister.mk "Ann" "ann@trimkart.io" "s3cret" "MANAGER" None.

Definition bob : UserRegister.t :=
  UserRegister.mk "Bob" "bob@trimkart.io" "hunter2" "EMPLOYEE" (Some "d1").

Definition a_task : Task.t :=
  Task.mk "Ship" None "u1" "u2" None "PENDING" None 100 [].

Definition an_update : TaskUpdateEntry.t :=
  TaskUpdateEntry.mk "u1" (Some "half way") (Some 50%Z) None.

(** The store after Ann and Bob have registered and one task was created. *)
Definition world : World :=
  let c := collaborators in
  (create_task a_task (register bob (register ann empty_world).2).2).2.

(** The task of that store: its identifier, as text and parsed, and its
    document. *)
Definition task_id : string := "00000000000000000000000a".
Definition task_oid : ObjectId := object_id 10.
Definition task_doc : doc :=
  let c := collaborators in
  <["created_at" := VDate 1700000000000008%Z]>
    (<["updated_at" := VDate 1700000000000009%Z]> (Task.model_dump a_task)).

(** That store after two more tasks were created and the first task was
    completed: three tasks, one of them completed. *)
Definition busy_world : World :=
  let c := collaborators in
  (set_task_status task_id "COMPLETED"
     (create_task a_task (create_task a_task world).2).2).2.

(** A registration that is not in that store, and one that differs from
    Ann's in everything but the address. *)
Definition eve : UserRegister.t :=
  UserRegister.mk "Eve" "eve@trimkart.io" "pw" "EMPLOYEE" None.
Definition ann_again : UserRegister.t :=
  UserRegister.mk "Anna" "ann@trimkart.io" "other" "CEO" (Some "d9").


End stub.

(** * Properties *)

(** ** The document store *)

Lemma to_dict_id (s : ObjectId * doc) : to_dict s !! "_id" = Some (VOid s.1).
Proof. unfold to_dict. by rewrite lookup_insert_eq. Qed.

Lemma to_dict_other (s : ObjectId * doc) (k : string) :
  k ≠ "_id" → to_dict s !! k = s.2 !! k.
Proof. intros Hk. unfold to_dict. by rewrite lookup_insert_ne. Qed.

Lemma to_dict_truthy (s : ObjectId * doc) : truthy (to_dict s) = true.
Proof.
  unfold truthy, dict_truthy, to_dict.
  rewrite bool_decide_eq_false_2; [done|]. apply insert_non_empty.
Qed.

Lemma matches_spec (query d : doc) :
  matches query d = true ↔ ∀ k v, query !! k = Some v → d !! k = Some v.
Proof.
  unfold matches. rewrite bool_decide_eq_true. apply map_Forall_lookup.
Qed.

Lemma matches_empty (d : doc) : matches ∅ d = true.
Proof. apply matches_spec. intros k v. by rewrite lookup_empty. Qed.

Lemma matches_singleton (k : string) (v : value) (d : doc) :
  matches {[ k := v ]} d = true ↔ d !! k = Some v.
Proof.
  rewrite matches_spec. split.
  - intros Hq. apply Hq. by rewrite lookup_singleton_eq.
  - intros Hd k' v'. rewrite lookup_singleton_Some. by intros [<- <-].
Qed.

Lemma matches_insert (k : string) (v : value) (query d : doc) :
  query !! k = None →
  matches (<[k := v]> query) d = true ↔ d !! k = Some v ∧ matches query d = true.
Proof.
  intros Hk. unfold matches. rewrite !bool_decide_eq_true.
  by rewrite map_Forall_insert.
Qed.

Lemma matches_id (o : ObjectId) (s : ObjectId * doc) :
  matches {[ "_id" := VOid o ]} (to_dict s) = true ↔ s.1 = o.
Proof.
  rewrite matches_singleton, to_dict_id. split; [congruence|by intros ->].
Qed.

Lemma find_all (c : collection) : find ∅ c = to_dict <$> c.
Proof.
  unfold find. f_equal. induction c as [|s c IH]; [done|].
  rewrite filter_cons_True; [by rewrite IH|]. by rewrite matches_empty.
Qed.

Lemma count_all (c : collection) : count_documents ∅ c = length c.
Proof. unfold count_documents. by rewrite find_all, length_fmap. Qed.

Lemma count_by_status (st : string) (c : collection) :
  count_documents {[ "status" := VStr st ]} c = count_status st c.
Proof.
  unfold count_documents, count_status, find. rewrite length_fmap. f_equal.
  apply list_filter_iff. intros s.
  rewrite Is_true_true, matches_singleton. by rewrite to_dict_other.
Qed.

Lemma find_one_by_email (e : string) (c : collection) :
  find_one {[ "email" := VStr e ]} c = to_dict <$> user_with_email e c.
Proof.
  unfold find_one, find, user_with_email.
  rewrite (list_filter_iff _ (λ s, s.2 !! "email" = Some (VStr e))).
  - by destruct (filter _ c).
  - intros s. rewrite Is_true_true, matches_singleton. by rewrite to_dict_other.
Qed.

Lemma user_with_email_Some (e : string) (c : collection) (s : ObjectId * doc) :
  user_with_email e c = Some s → s ∈ c ∧ s.2 !! "email" = Some (VStr e).
Proof.
  unfold user_with_email. intros Hh.
  apply head_Some_elem_of in Hh. by apply list_elem_of_filter in Hh as [? ?].
Qed.

Lemma user_with_email_taken (e : string) (c : collection) :
  is_Some (user_with_email e c) ↔ email_taken e c.
Proof.
  split.
  - intros [s Hs]. exists s. by apply user_with_email_Some.
  - intros (s & Hin & He). unfold user_with_email.
    assert (Hf : s ∈ filter (λ s, s.2 !! "email" = Some (VStr e)) c)
      by by apply list_elem_of_filter.
    destruct (filter _ c); [by apply elem_of_nil in Hf|by eexists].
Qed.

Lemma user_with_email_unique (e : string) (c : collection) (s : ObjectId * doc) :
  unique_emails c → s ∈ c → s.2 !! "email" = Some (VStr e) →
  user_with_email e c = Some s.
Proof.
  intros Hu Hin He.
  destruct (user_with_email e c) as [s'|] eqn:Hw.
  - apply user_with_email_Some in Hw as [Hin' He'].
    apply list_elem_of_lookup in Hin as [i Hi].
    apply list_elem_of_lookup in Hin' as [j Hj].
    assert (i = j) as -> by eauto. congruence.
  - assert (is_Some (user_with_email e c)) as [? ?]; [|congruence].
    apply user_with_email_taken. by exists s.
Qed.

(** ** Register *)

Section register_facts.
Context `{Collaborators}.

Lemma register_conflict (payload : UserRegister.t) (w : World) :
  email_taken (UserRegister.email payload) (coll "user" w) →
  register payload w =
    (inl (HTTPException 400 "Email already registered"), w).
Proof.
  intros Ht. apply user_with_email_taken in Ht as [s Hs].
  unfold register, bind, get_user_by_email, db_find_one.
  rewrite find_one_by_email, Hs.
  change (truthy (to_dict <$> Some s)) with (truthy (to_dict s)).
  by rewrite to_dict_truthy.
Qed.

Lemma register_fresh (payload : UserRegister.t) (w : World) :
  ¬ email_taken (UserRegister.email payload) (coll "user" w) →
  register payload w =
    (inr (IdMessage (oid_hex (new_object_id (3 + ticks w)))
            "Registered successfully"),
     {| db := <["user" := coll "user" w
                  ++ [(new_object_id (3 + ticks w), registered_doc payload w)]]>
                (db w);
        ticks := 4 + ticks w |}).
Proof.
  intros Hn.
  destruct (user_with_email (UserRegister.email payload) (coll "user" w))
    as [s|] eqn:Hs.
  { exfalso. apply Hn, user_with_email_taken. by eexists. }
  unfold register, bind, get_user_by_email, db_find_one.
  rewrite find_one_by_email, Hs. reflexivity.
Qed.

Lemma registered_doc_email (payload : UserRegister.t) (w : World) :
  registered_doc payload w !! "email" = Some (VStr (UserRegister.email payload)).
Proof. reflexivity. Qed.

Lemma unique_emails_snoc (c : collection) (i : ObjectId) (d : doc) (e : string) :
  unique_emails c → ¬ email_taken e c → d !! "email" = Some (VStr e) →
  unique_emails (c ++ [(i, d)]).
Proof.
  intros Hu Hn Hd a b s1 s2 v H1 H2 E1 E2.
  apply lookup_snoc_Some in H1 as [[Ha H1]|[Ha <-]];
    apply lookup_snoc_Some in H2 as [[Hb H2]|[Hb <-]]; simpl in *.
  - eauto.
  - exfalso. apply Hn. exists s1. split; [by eapply list_elem_of_lookup_2|].
    congruence.
  - exfalso. apply Hn. exists s2. split; [by eapply list_elem_of_lookup_2|].
    congruence.
  - congruence.
Qed.

(** C1. In every store and for every registration payload, [register]
    raises the duplicate-email error (400, "Email already registered")
    exactly when some stored user has the payload's e-mail address, whatever
    the other fields are, and then leaves the store as it was; otherwise it
    stores the user with the hash of the password and both timestamps after
    the existing users and returns the new identifier.  So a registration
    keeps the e-mail addresses of a store pairwise distinct. *)
Theorem register_rejects_exactly_taken_emails
    (payload : UserRegister.t) (w : World) :
  let e := UserRegister.email payload in
  let c := default [] (db w !! "user") in
  let i := new_object_id (3 + ticks w) in
  ((register payload w).1 = inl (HTTPException 400 "Email already registered")
     ↔ email_taken e c)
  ∧ (email_taken e c → (register payload w).2 = w)
  ∧ (¬ email_taken e c →
       register payload w =
         (inr (IdMessage (oid_hex i) "Registered successfully"),
          {| db := <["user" := c ++ [(i, registered_doc payload w)]]> (db w);
             ticks := 4 + ticks w |})
       ∧ registered_doc payload w !! "password_hash" =
           Some (VStr (pwd_hash (ticks w) (UserRegister.password payload))))
  ∧ (unique_emails c →
       unique_emails (default [] (db (register payload w).2 !! "user"))).
Proof.
  intros e c i.
  destruct (decide (is_Some (user_with_email e c))) as [Hs|Hs].
  - assert (Ht : email_taken e (coll "user" w))
      by by apply user_with_email_taken.
    rewrite (register_conflict _ _ Ht). simpl. by repeat split.
  - assert (Ht : ¬ email_taken e (coll "user" w))
      by by rewrite <-user_with_email_taken.
    rewrite (register_fresh _ _ Ht). simpl. repeat split; try done.
    intros Hu. rewrite lookup_insert_eq; simpl.
    apply unique_emails_snoc with (e := e); [done|done|].
    apply registered_doc_email.
Qed.

End register_facts.

(** ** What a response shows of a stored document *)

Lemma exposed_id (s : ObjectId * doc) :
  exposed s !! "id" = Some (VStr (oid_hex s.1)).
Proof. unfold exposed. by rewrite lookup_insert_eq. Qed.

Lemma exposed_no_internal_id (s : ObjectId * doc) : exposed s !! "_id" = None.
Proof.
  unfold exposed. rewrite lookup_insert_ne by done. apply lookup_delete_eq.
Qed.

Lemma exposed_other (s : ObjectId * doc) (k : string) :
  k ≠ "id" → k ≠ "_id" → exposed s !! k = s.2 !! k.
Proof.
  intros H1 H2. unfold exposed.
  rewrite lookup_insert_ne by done. by rewrite lookup_delete_ne.
Qed.

Lemma public_user_no_hash (s : ObjectId * doc) :
  public_user s !! "password_hash" = None.
Proof. apply lookup_delete_eq. Qed.

Lemma public_user_id (s : ObjectId * doc) :
  public_user s !! "id" = Some (VStr (oid_hex s.1)).
Proof.
  unfold public_user. rewrite lookup_delete_ne by done. apply exposed_id.
Qed.

Lemma public_user_no_internal_id (s : ObjectId * doc) :
  public_user s !! "_id" = None.
Proof.
  unfold public_user. rewrite lookup_delete_ne by done.
  apply exposed_no_internal_id.
Qed.

Lemma public_user_other (s : ObjectId * doc) (k : string) :
  k ≠ "id" → k ≠ "_id" → k ≠ "password_hash" →
  public_user s !! k = s.2 !! k.
Proof.
  intros H1 H2 H3. unfold public_user.
  rewrite lookup_delete_ne by done. by apply exposed_other.
Qed.

Lemma rename_id_to_dict (s : ObjectId * doc) (w : World) :
  rename_id (to_dict s) w = (inr (exposed s), w).
Proof.
  unfold rename_id, pop. rewrite to_dict_id.
  unfold to_dict. by rewrite delete_insert_eq.
Qed.

Lemma for_each_public_user (l : collection) (w : World) :
  for_each (λ u, u <- rename_id u ;; ret (pop_default "password_hash" u))
    (to_dict <$> l) w
  = (inr (public_user <$> l), w).
Proof.
  induction l as [|s l IH]; [done|].
  rewrite fmap_cons. simpl. unfold bind at 1. unfold bind at 1.
  rewrite rename_id_to_dict. unfold ret at 1.
  unfold bind at 1. rewrite IH. reflexivity.
Qed.

Lemma for_each_exposed (l : collection) (w : World) :
  for_each rename_id (to_dict <$> l) w = (inr (exposed <$> l), w).
Proof.
  induction l as [|s l IH]; [done|].
  rewrite fmap_cons. simpl. unfold bind at 1.
  rewrite rename_id_to_dict. unfold bind at 1. rewrite IH. reflexivity.
Qed.

(** ** Login *)

Section login_facts.
Context `{Collaborators}.

Lemma login_run (payload : UserLogin.t) (w : World) :
  login payload w =
    match user_with_email (UserLogin.email payload) (coll "user" w) with
    | Some s =>
        if pwd_verify (UserLogin.password payload) (stored_hash s)
        then (inr (MessageUser "Login successful" (public_user s)), w)
        else (inl (HTTPException 401 "Invalid credentials"), w)
    | None => (inl (HTTPException 401 "Invalid credentials"), w)
    end.
Proof.
  unfold login, bind at 1, get_user_by_email, db_find_one.
  rewrite find_one_by_email.
  destruct (user_with_email _ _) as [s|]; [|done].
  change (to_dict <$> Some s) with (Some (to_dict s)). cbv beta iota.
  rewrite to_dict_truthy.
  replace (get_default "password_hash" (VStr "") (to_dict s))
    with (stored_hash s)
    by (unfold stored_hash, get_default; by rewrite to_dict_other).
  destruct (pwd_verify _ _); [|done].
  simpl. unfold bind. by rewrite rename_id_to_dict.
Qed.

(** C2. In every store, [login] succeeds exactly when the lookup by e-mail
    address finds a user and the password verifies against that user's
    stored hash.  When no user has the address and when the password does
    not verify, the caller gets one and the same error (401, "Invalid
    credentials") and the store is untouched.  On success the returned user
    has no [password_hash], has the text of the store identifier under [id],
    no [_id], and every other field as stored.  Where e-mail addresses are
    pairwise distinct, the user found is the only one with the address. *)
Theorem login_succeeds_iff_found_and_verified
    (payload : UserLogin.t) (w : World) :
  let e := UserLogin.email payload in
  let p := UserLogin.password payload in
  let c := coll "user" w in
  let denied := (inl (HTTPException 401 "Invalid credentials"), w) in
  ((∃ r, (login payload w).1 = inr r) ↔
     ∃ s, user_with_email e c = Some s ∧ pwd_verify p (stored_hash s) = true)
  ∧ (user_with_email e c = None → login payload w = denied)
  ∧ (∀ s, user_with_email e c = Some s →
          pwd_verify p (stored_hash s) = false → login payload w = denied)
  ∧ (∀ s, user_with_email e c = Some s → pwd_verify p (stored_hash s) = true →
       login payload w = (inr (MessageUser "Login successful" (public_user s)), w)
       ∧ public_user s !! "password_hash" = None
       ∧ public_user s !! "id" = Some (VStr (oid_hex s.1))
       ∧ public_user s !! "_id" = None
       ∧ ∀ k, k ≠ "id" → k ≠ "_id" → k ≠ "password_hash" →
              public_user s !! k = s.2 !! k)
  ∧ (unique_emails c →
       (∃ r, (login payload w).1 = inr r) ↔
       ∃ s, s ∈ c ∧ s.2 !! "email" = Some (VStr e)
            ∧ pwd_verify p (stored_hash s) = true).
Proof.
  intros e p c denied. rewrite login_run. fold e p c.
  assert (Hiff : (∃ r : response,
      (match user_with_email e c with
       | Some s =>
           if pwd_verify p (stored_hash s)
           then (inr (MessageUser "Login successful" (public_user s)), w)
           else (inl (HTTPException 401 "Invalid credentials"), w)
       | None => (inl (HTTPException 401 "Invalid credentials"), w)
       end).1 = inr r) ↔
     ∃ s, user_with_email e c = Some s ∧ pwd_verify p (stored_hash s) = true).
  { destruct (user_with_email e c) as [s|] eqn:Hs.
    - destruct (pwd_verify p (stored_hash s)) eqn:Hv; simpl.
      + split; [intros _; by exists s|intros _; by eexists].
      + split; [by intros [? ?]|]. intros (s' & [= <-] & Hv'). congruence.
    - simpl. split; [by intros [? ?]|]. by intros (? & ? & ?). }
  split; [exact Hiff|].
  split; [by intros ->|].
  split; [by intros s -> ->|].
  split.
  { intros s -> ->. split; [done|].
    split; [apply public_user_no_hash|].
    split; [apply public_user_id|].
    split; [apply public_user_no_internal_id|apply public_user_other]. }
  intros Hu. rewrite Hiff. split.
  - intros (s & Hs & Hv). exists s.
    apply user_with_email_Some in Hs as [? ?]. done.
  - intros (s & Hin & He & Hv). exists s. split; [|done].
    by apply user_with_email_unique.
Qed.

End login_facts.

(** ** Listing with filters *)

Lemma add_filter_lookup_ne (k k' : string) (x : option string) (query : doc) :
  k ≠ k' → add_filter k x query !! k' = query !! k'.
Proof.
  intros Hk. unfold add_filter. destruct x as [[|a r]|]; simpl; try done.
  by rewrite lookup_insert_ne.
Qed.

Lemma matches_add_filter (k : string) (x : option string) (query : doc)
    (s : ObjectId * doc) :
  k ≠ "_id" → query !! k = None →
  matches (add_filter k x query) (to_dict s) = true ↔
  satisfies k x s ∧ matches query (to_dict s) = true.
Proof.
  intros Hk Hq. unfold add_filter, satisfies.
  destruct x as [[|a r]|]; simpl; [tauto| |tauto].
  rewrite matches_insert by done. by rewrite to_dict_other.
Qed.

(** An absent filter and an empty one build the same query. *)
Lemma add_filter_empty_string (k : string) (query : doc) :
  add_filter k (Some "") query = add_filter k None query.
Proof. reflexivity. Qed.

Lemma list_users_run (role department_id : option string) (w : World) :
  list_users role department_id w =
    (inr (Docs (public_user <$>
            filter (λ s, satisfies "role" role s
                        ∧ satisfies "department_id" department_id s)
              (coll "user" w))), w).
Proof.
  unfold list_users, bind at 1, db_find, find. unfold bind at 1.
  rewrite for_each_public_user. unfold ret. do 4 f_equal.
  apply list_filter_iff. intros s. rewrite Is_true_true.
  rewrite matches_add_filter;
    [|done|by rewrite add_filter_lookup_ne].
  rewrite matches_add_filter by done.
  rewrite matches_empty. tauto.
Qed.

(** The store after the handlers below is read through [coll]. *)
Lemma coll_set_coll (name name' : string) (c : collection) (w : World) :
  coll name' (set_coll name c w) = if decide (name = name') then c else coll name' w.
Proof.
  unfold coll, set_coll. simpl. rewrite lookup_insert.
  by destruct (decide (name = name')).
Qed.

Lemma set_coll_same (name : string) (w : World) :
  coll name (set_coll name (coll name w) w) = coll name w.
Proof. rewrite coll_set_coll. by rewrite decide_True. Qed.


Lemma insert_desc_Forall (P : doc → Prop) (key : string) (x : doc) (l : list doc) :
  P x → Forall P l → Forall P (insert_desc key x l).
Proof.
  intros Hx Hl. induction Hl as [|y l Hy Hl IH]; simpl.
  - by constructor.
  - destruct (bson_ltb _ _); by repeat constructor.
Qed.

Lemma sort_desc_Forall (P : doc → Prop) (key : string) (l : list doc) :
  Forall P l → Forall P (sort_desc key l).
Proof.
  induction 1 as [|x l Hx Hl IH]; simpl; [constructor|].
  by apply insert_desc_Forall.
Qed.

Lemma insert_desc_Permutation (key : string) (x : doc) (l : list doc) :
  insert_desc key x l ≡ₚ x :: l.
Proof.
  induction l as [|y l IH]; simpl; [done|].
  destruct (bson_ltb _ _); [|done].
  rewrite IH. apply Permutation_swap.
Qed.

(** Sorting drops and adds no document. *)
Lemma sort_desc_Permutation (key : string) (l : list doc) :
  sort_desc key l ≡ₚ l.
Proof.
  induction l as [|x l IH]; simpl; [done|].
  rewrite insert_desc_Permutation. by rewrite IH.
Qed.

Lemma for_each_rename_id (l : list doc) (w : World) :
  Forall has_object_id l →
  for_each rename_id l w = (inr (exposed_dict <$> l), w).
Proof.
  induction 1 as [|d l [o Hd] Hl IH]; [done|].
  rewrite fmap_cons. cbn [for_each]. unfold bind at 1.
  unfold rename_id at 1, pop, exposed_dict at 1. rewrite Hd.
  cbn [str]. unfold bind at 1. unfold ret at 1. unfold bind at 1.
  unfold ret at 1. cbv beta iota. by rewrite IH.
Qed.

Lemma list_tasks_run (status assigned_to department_id : option string)
    (w : World) :
  list_tasks status assigned_to department_id w =
    (inr (Docs (exposed_dict <$> sort_desc "created_at" (to_dict <$>
            filter (λ s, satisfies "status" status s
                        ∧ satisfies "assigned_to" assigned_to s
                        ∧ satisfies "department_id" department_id s)
              (coll "task" w)))), w).
Proof.
  unfold list_tasks, bind at 1, db_find, find. unfold bind at 1.
  rewrite for_each_rename_id.
  - unfold ret. do 6 f_equal.
    apply list_filter_iff. intros s. rewrite Is_true_true.
    rewrite matches_add_filter;
      [|done|by rewrite !add_filter_lookup_ne].
    rewrite matches_add_filter;
      [|done|by rewrite !add_filter_lookup_ne].
    rewrite matches_add_filter by done.
    rewrite matches_empty. tauto.
  - apply sort_desc_Forall, Forall_fmap, Forall_forall.
    intros s _. exists s.1. apply to_dict_id.
Qed.




(** ** Updating one task *)

Lemma matches_id_false (o : ObjectId) (s : ObjectId * doc) :
  s.1 ≠ o → matches {[ "_id" := VOid o ]} (to_dict s) = false.
Proof.
  intros Hne. apply not_true_iff_false. by rewrite matches_id.
Qed.

Lemma update_one_absent (o : ObjectId) (u : update) (c : collection) :
  (∀ s, s ∈ c → s.1 ≠ o) →
  update_one {[ "_id" := VOid o ]} u c = Some (0, c).
Proof.
  induction c as [|s c IH]; intros Hc; [done|]. simpl.
  rewrite matches_id_false by (apply Hc; left).
  rewrite IH; [done|]. intros s' Hs'. apply Hc. by right.
Qed.

Lemma update_one_first (o : ObjectId) (u : update) (l1 l2 : collection)
    (d d' : doc) :
  (∀ s, s ∈ l1 → s.1 ≠ o) → apply_update u d = Some d' →
  update_one {[ "_id" := VOid o ]} u (l1 ++ (o, d) :: l2)
    = Some (1, l1 ++ (o, d') :: l2).
Proof.
  intros Hl1 Hd. induction l1 as [|s l1 IH]; simpl.
  - rewrite (proj2 (matches_id o (o, d))) by done. simpl. by rewrite Hd.
  - rewrite matches_id_false by (apply Hl1; left).
    rewrite IH; [done|]. intros s' Hs'. apply Hl1. by right.
Qed.

Lemma union_lookup_set (k : string) (m d : doc) (v : value) :
  m !! k = Some v → (m ∪ d) !! k = Some v.
Proof. intros Hm. by apply lookup_union_Some_l. Qed.

Lemma union_lookup_frame (k : string) (m d : doc) :
  m !! k = None → (m ∪ d) !! k = d !! k.
Proof. intros Hm. by apply lookup_union_r. Qed.

Section task_update_facts.
Context `{Collaborators}.

Lemma set_task_status_invalid (task_id status : string) (w : World) :
  status ∉ ["PENDING"; "IN_PROGRESS"; "COMPLETED"] →
  set_task_status task_id status w = (inl (HTTPException 400 "Invalid status"), w).
Proof.
  intros Hs. unfold set_task_status. by rewrite bool_decide_eq_false_2.
Qed.

Lemma set_task_status_valid (task_id status : string) (w : World) :
  status ∈ ["PENDING"; "IN_PROGRESS"; "COMPLETED"] →
  set_task_status task_id status w =
    match parse_object_id task_id with
    | None => (inl (HTTPException 400 "Invalid id format"), w)
    | Some o =>
        match update_one {[ "_id" := VOid o ]}
                {| op_push := None;
                   op_set := {[ "status" := VStr status;
                                "updated_at" := VDate (utcnow (ticks w)) ]} |}
                (coll "task" w) with
        | Some (0, c) =>
            (inl (HTTPException 404 "Task not found"), set_coll "task" c (tick w))
        | Some (S _, c) =>
            (inr (Message "Status updated"), set_coll "task" c (tick w))
        | None => (inl WriteError, tick w)
        end
    end.
Proof.
  intros Hs. unfold set_task_status. rewrite bool_decide_eq_true_2 by done.
  cbn [negb]. unfold bind at 1, oid.
  destruct (parse_object_id task_id) as [o|]; [|done].
  unfold ret at 1. unfold bind at 1, now. unfold bind at 1, db_update_one.
  change (coll "task" (tick w)) with (coll "task" w).
  change (ticks (tick w)) with (S (ticks w)).
  destruct (update_one _ _ _) as [[[|n] c]|]; reflexivity.
Qed.

(** C3. For a task that exists and a status among PENDING, IN_PROGRESS and
    COMPLETED, [set_task_status] succeeds; the task then has the given
    status and the clock's reading as [updated_at], every other field of it
    (its [progress] and [updates] among them) is as before, and so is every
    other task.  For any other status it answers 400, "Invalid status", and
    the store is as it was. *)
Theorem set_task_status_changes_status_only
    (task_id status : string) (w : World)
    (o : ObjectId) (l1 l2 : collection) (d : doc) :
  parse_object_id task_id = Some o →
  coll "task" w = l1 ++ (o, d) :: l2 →
  (∀ s, s ∈ l1 → s.1 ≠ o) →
  let t := utcnow (ticks w) in
  let d' : doc := {[ "status" := VStr status; "updated_at" := VDate t ]} ∪ d in
  (status ∈ ["PENDING"; "IN_PROGRESS"; "COMPLETED"] →
     set_task_status task_id status w =
       (inr (Message "Status updated"),
        {| db := <["task" := l1 ++ (o, d') :: l2]> (db w);
           ticks := S (ticks w) |})
     ∧ d' !! "status" = Some (VStr status)
     ∧ d' !! "updated_at" = Some (VDate t)
     ∧ (∀ k, k ≠ "status" → k ≠ "updated_at" → d' !! k = d !! k)
     ∧ d' !! "progress" = d !! "progress"
     ∧ d' !! "updates" = d !! "updates")
  ∧ (status ∉ ["PENDING"; "IN_PROGRESS"; "COMPLETED"] →
     set_task_status task_id status w =
       (inl (HTTPException 400 "Invalid status"), w)).
Proof.
  intros Hp Hc Hl1 t d'. split; [|apply set_task_status_invalid].
  intros Hs. split.
  { rewrite set_task_status_valid by done. rewrite Hp, Hc.
    by rewrite (update_one_first o _ l1 l2 d d'). }
  assert (Hframe : ∀ k, k ≠ "status" → k ≠ "updated_at" → d' !! k = d !! k).
  { intros k H1 H2. apply union_lookup_frame.
    rewrite lookup_insert_ne by done. by rewrite lookup_singleton_ne. }
  split; [by apply union_lookup_set|].
  split; [by apply union_lookup_set|].
  split; [done|]. split; by apply Hframe.
Qed.

(** C9. Whatever the task id is (well formed or not, of a stored task or
    not), a status that is not PENDING, IN_PROGRESS or COMPLETED gets 400,
    "Invalid status", and the store, its clock included, is as it was: the
    id is not parsed and the store is not consulted.  The two other errors
    are reached only with a valid status: 400, "Invalid id format", for an
    id that does not parse, and 404, "Task not found", with every collection
    as before, for an id no task has. *)
Theorem invalid_status_is_checked_first
    (task_id status : string) (w : World) :
  (status ∉ ["PENDING"; "IN_PROGRESS"; "COMPLETED"] →
     set_task_status task_id status w =
       (inl (HTTPException 400 "Invalid status"), w))
  ∧ (status ∈ ["PENDING"; "IN_PROGRESS"; "COMPLETED"] →
     parse_object_id task_id = None →
     set_task_status task_id status w =
       (inl (HTTPException 400 "Invalid id format"), w))
  ∧ (status ∈ ["PENDING"; "IN_PROGRESS"; "COMPLETED"] →
     ∀ o, parse_object_id task_id = Some o →
          (∀ s, s ∈ coll "task" w → s.1 ≠ o) →
          (set_task_status task_id status w).1 =
            inl (HTTPException 404 "Task not found")
          ∧ ∀ name, coll name (set_task_status task_id status w).2
                    = coll name w).
Proof.
  split; [apply set_task_status_invalid|]. split.
  - intros Hs Hp. rewrite set_task_status_valid by done. by rewrite Hp.
  - intros Hs o Hp Habs. rewrite set_task_status_valid by done.
    rewrite Hp, update_one_absent by done. split; [done|].
    intros name. cbn [snd]. rewrite coll_set_coll.
    by destruct (decide ("task" = name)) as [<-|].
Qed.

Lemma add_task_update_run (task_id : string) (update : TaskUpdateEntry.t)
    (w : World) (o : ObjectId) :
  parse_object_id task_id = Some o →
  let supplied := TaskUpdateEntry.created_at update in
  let n' := match supplied with Some _ => ticks w | None => S (ticks w) end in
  let entry := appended_entry update w in
  add_task_update task_id update w =
    match update_one {[ "_id" := VOid o ]}
            {| op_push := Some ("updates", entry);
               op_set := {[ "updated_at" := VDate (utcnow n') ]} |}
            (coll "task" w) with
    | Some (0, c) =>
        (inl (HTTPException 404 "Task not found"),
         {| db := <["task" := c]> (db w); ticks := S n' |})
    | Some (S _, c) =>
        (inr (Message "Update added"),
         {| db := <["task" := c]> (db w); ticks := S n' |})
    | None => (inl WriteError, {| db := db w; ticks := S n' |})
    end.
Proof.
  intros Hp supplied n' entry.
  unfold add_task_update, appended_entry in *. subst supplied n' entry.
  destruct update as [uid nt pr [ts|]]; cbn [TaskUpdateEntry.created_at].
  - unfold bind at 1.
    change (truthy (TaskUpdateEntry.model_dump
                      (TaskUpdateEntry.mk uid nt pr (Some ts)) !! "created_at"))
      with true.
    cbn [negb]. unfold ret at 1. unfold bind at 1, oid. rewrite Hp.
    unfold ret at 1. unfold bind at 1, now. unfold bind at 1, db_update_one.
    change (coll "task" (tick w)) with (coll "task" w).
    destruct (update_one _ _ _) as [[[|n] c]|]; reflexivity.
  - unfold bind at 1.
    change (truthy (TaskUpdateEntry.model_dump
                      (TaskUpdateEntry.mk uid nt pr None) !! "created_at"))
      with false.
    cbn [negb]. unfold bind at 1, now at 1. unfold ret at 1.
    unfold bind at 1, oid. rewrite Hp.
    unfold ret at 1. unfold bind at 1, now. unfold bind at 1, db_update_one.
    change (coll "task" (tick (tick w))) with (coll "task" w).
    destruct (update_one _ _ _) as [[[|n] c]|]; reflexivity.
Qed.

End task_update_facts.

Section add_task_update_facts.
Context `{Collaborators}.




End add_task_update_facts.

(** ** Analytics *)

Lemma float_of_int_of_nat (n : nat) :
  float_of_int (Z.of_nat n) =
    match n with
    | 0 => S754_zero false
    | S _ => S754_finite false (Pos.of_nat n) 0
    end.
Proof. destruct n as [|n]; [done|]. simpl. by rewrite Pos.of_nat_succ. Qed.

(** For all counts up to a hundred tasks the binary64 value of
    [c / t * 100] is within [2^-46] of the fraction. *)
Lemma near_percentage_checked :
  forallb (λ t, forallb (λ c, near_percentage_test c t) (seq 0 (S t)))
    (seq 1 100) = true.
Proof. by vm_compute. Qed.

Lemma near_percentage_small (c t : nat) :
  (c ≤ t)%nat → (0 < t ≤ 100)%nat →
  near_percentage
    (SFmul 53 1024
       (SFdiv 53 1024
          match c with
          | 0 => S754_zero false
          | S _ => S754_finite false (Pos.of_nat c) 0
          end
          match t with
          | 0 => S754_zero false
          | S _ => S754_finite false (Pos.of_nat t) 0
          end)
       (S754_finite false 100 0)) c t.
Proof.
  intros Hc Ht. pose proof near_percentage_checked as Hall.
  rewrite List.forallb_forall in Hall.
  assert (Hin : In t (seq 1 100)) by (apply List.in_seq; lia).
  specialize (Hall t Hin). rewrite List.forallb_forall in Hall.
  assert (Hin' : In c (seq 0 (S t))) by (apply List.in_seq; lia).
  specialize (Hall c Hin'). unfold near_percentage_test in Hall.
  unfold near_percentage.
  destruct (float_value _) as [v|]; [|done].
  exists v. split; [done|]. by apply QArith_base.Qle_bool_iff.
Qed.

(** C5. In every store the analytics overview reports the number of users,
    the number of tasks and the number of tasks in each of the three
    statuses, and leaves the store as it was.  Its completion rate is
    exactly +0.0 when there is no task, and otherwise the binary64 value of
    [completed / total * 100] on the two counts as exact operands: the
    quotient rounded to the nearest float, times 100, rounded again.  So it
    is +0.0 when no task is completed, and for up to a hundred tasks it is a
    number within [2^-46] of the fraction [100 * completed / total]. *)
Theorem analytics_overview_counts_and_rate (w : World) :
  let stored_users := default [] (db w !! "user") in
  let stored_tasks := default [] (db w !! "task") in
  let total := length stored_tasks in
  let finished := count_status "COMPLETED" stored_tasks in
  let operand (n : nat) :=
    match n with
    | 0 => S754_zero false
    | S _ => S754_finite false (Pos.of_nat n) 0
    end in
  let rate :=
    match total with
    | 0 => S754_zero false
    | S _ =>
        SFmul 53 1024 (SFdiv 53 1024 (operand finished) (operand total))
          (S754_finite false 100 0)
    end in
  analytics_overview w =
    (inr (Analytics
       {| users := length stored_users;
          tasks := total;
          completed := finished;
          in_progress := count_status "IN_PROGRESS" stored_tasks;
          pending := count_status "PENDING" stored_tasks;
          completion_rate := rate |}), w)
  ∧ (finished ≤ total)%nat
  ∧ (finished = 0 → rate = S754_zero false)
  ∧ ((0 < total ≤ 100)%nat → near_percentage rate finished total).
Proof.
  intros stored_users stored_tasks total finished operand rate.
  assert (Hle : (finished ≤ total)%nat) by apply length_filter.
  split; [|split; [done|split]].
  - unfold analytics_overview, bind, db_count_documents, ret.
    rewrite !count_all, !count_by_status.
    change (coll "task" w) with stored_tasks.
    change (coll "user" w) with stored_users.
    fold total finished. do 3 f_equal. unfold rate.
    destruct total as [|n] eqn:Ht; [done|].
    unfold fmul_int, truediv. by rewrite !float_of_int_of_nat.
  - intros Hf. unfold rate. rewrite Hf. by destruct total.
  - intros Ht. unfold rate. destruct total as [|n] eqn:Hn; [lia|].
    rewrite <-Hn. apply near_percentage_small; lia.
Qed.

(** One task of three completed: 33.33333333333333 (not 100/3, which no
    float is); seven of twenty-five: 28.000000000000004. *)
Example completion_rate_one_third :
  fmul_int (truediv 1 3) 100 = S754_finite false 4691249611844266 (-47)
  ∧ fmul_int (truediv 7 25) 100 = S754_finite false 7881299347898369 (-48).
Proof. by vm_compute. Qed.

(** ** Validation *)

Lemma errors_of_ap {A B} (f : Validated (A → B)) (a : Validated A) :
  errors_of (f <*> a) = errors_of f ++ errors_of a.
Proof. destruct f, a; simpl; by rewrite ?app_nil_r. Qed.

Lemma ap_inr {A B} (f : Validated (A → B)) (a : Validated A) (y : B) :
  f <*> a = inr y → ∃ g x, f = inr g ∧ a = inr x ∧ y = g x.
Proof. destruct f, a; simpl; intros [= <-]. eauto. Qed.

Lemma errors_at_ap {A B} (loc : list loc_item)
    (f : Validated (A → B)) (a : Validated A) :
  errors_at loc (f <*> a) = errors_at loc f ++ errors_at loc a.
Proof. unfold errors_at. by rewrite errors_of_ap, filter_app. Qed.

Lemma errors_at_inr {A} (loc : list loc_item) (a : A) :
  errors_at loc (inr a : Validated A) = [].
Proof. done. Qed.

Lemma errors_at_fail {A} (loc loc' : list loc_item) (ty : string) :
  loc' ≠ loc → errors_at loc (v_fail ty loc' : Validated A) = [].
Proof.
  intros Hne. unfold errors_at, v_fail. simpl.
  by rewrite filter_cons_False, filter_nil.
Qed.

Lemma errors_at_required {A} (loc loc' : list loc_item) (o : option A) :
  loc' ≠ loc → errors_at loc (required loc' o) = [].
Proof. intros Hne. destruct o; [done|]. by apply errors_at_fail. Qed.

Lemma errors_at_literal (loc loc' : list loc_item) (allowed : list string)
    (s : string) :
  loc' ≠ loc → errors_at loc (literal allowed loc' s) = [].
Proof.
  intros Hne. unfold literal. destruct (bool_decide _); [done|].
  by apply errors_at_fail.
Qed.

Lemma ge_le_inr (lo hi : Z) (loc : list loc_item) (z : Z) :
  (lo ≤ z ≤ hi)%Z → ge_le lo hi loc z = inr z.
Proof.
  intros [Hlo Hhi]. unfold ge_le.
  destruct (Z.ltb_spec z lo); [lia|]. destruct (Z.ltb_spec hi z); [lia|done].
Qed.

Lemma ge_le_inl (lo hi : Z) (loc : list loc_item) (z : Z) :
  (z < lo ∨ hi < z)%Z → ∃ ty, ge_le lo hi loc z = inl [mkError ty loc].
Proof.
  intros Hz. unfold ge_le, v_fail.
  destruct (Z.ltb_spec z lo); [by eexists|].
  destruct (Z.ltb_spec hi z); [by eexists|lia].
Qed.

(** The errors of the entries of a list field are located under the
    field. *)
Lemma errors_at_entry (loc loc' : list loc_item) (i : TaskUpdateEntry.input) :
  (∀ k, loc' ++ [Key k] ≠ loc) →
  errors_at loc (TaskUpdateEntry.validate_at loc' i) = [].
Proof.
  intros Hne. unfold TaskUpdateEntry.validate_at.
  rewrite !errors_at_ap, !errors_at_inr, errors_at_required by done.
  destruct (TaskUpdateEntry.in_progress i) as [p|]; [|done].
  rewrite errors_at_ap, errors_at_inr. unfold ge_le.
  repeat case_match; rewrite ?errors_at_fail by done; done.
Qed.

Lemma errors_at_updates (loc : list loc_item) (n : nat)
    (l : list TaskUpdateEntry.input) :
  length loc < 3 →
  errors_at loc (v_list TaskUpdateEntry.validate_at [Key "updates"] n l) = [].
Proof.
  intros Hloc. revert n. induction l as [|i l IH]; intros n; [done|].
  cbn [v_list]. rewrite !errors_at_ap, errors_at_inr, IH, errors_at_entry; [done|].
  intros k Hk. rewrite <-Hk in Hloc. simpl in Hloc. lia.
Qed.

Ltac invert_ap :=
  repeat match goal with
         | Hv : _ <*> _ = inr _ |- _ =>
             apply ap_inr in Hv as (? & ? & Hv & ? & ->)
         | Hv : inr _ = inr _ |- _ => injection Hv as <-
         end.

Lemma task_progress_errors (i : Task.input) :
  errors_at [Key "progress"] (Task.validate i) =
    match Task.in_progress i with
    | Some p => errors_at [Key "progress"] (ge_le 0 100 [Key "progress"] p)
    | None => []
    end.
Proof.
  unfold Task.validate.
  rewrite !errors_at_ap, !errors_at_inr, !errors_at_required by done.
  replace (errors_at [Key "progress"]
             match Task.in_status i with
             | Some s => literal TaskStatus [Key "status"] s
             | None => inr "PENDING"
             end) with (@nil ErrorDetails)
    by (destruct (Task.in_status i); [by rewrite errors_at_literal|done]).
  replace (errors_at [Key "progress"]
             match Task.in_updates i with
             | Some l => v_list TaskUpdateEntry.validate_at [Key "updates"] 0 l
             | None => inr []
             end) with (@nil ErrorDetails)
    by (destruct (Task.in_updates i);
        [by rewrite errors_at_updates by (simpl; lia)|done]).
  simpl. rewrite app_nil_r. by destruct (Task.in_progress i).
Qed.

Lemma task_progress_validated (i : Task.input) (x : Task.t) :
  Task.validate i = inr x →
  match Task.in_progress i with
  | Some p => ge_le 0 100 [Key "progress"] p = inr (Task.progress x)
  | None => Task.progress x = 0%Z
  end.
Proof.
  unfold Task.validate. intros Hv. invert_ap. simpl.
  destruct (Task.in_progress i); [done|congruence].
Qed.

Lemma entry_progress_validated (i : TaskUpdateEntry.input) (x : TaskUpdateEntry.t) :
  TaskUpdateEntry.validate i = inr x →
  match TaskUpdateEntry.in_progress i with
  | Some p =>
      ge_le 0 100 [Key "progress"] p = inr p ∧ TaskUpdateEntry.progress x = Some p
  | None => TaskUpdateEntry.progress x = None
  end.
Proof.
  unfold TaskUpdateEntry.validate, TaskUpdateEntry.validate_at.
  intros Hv. invert_ap. simpl.
  destruct (TaskUpdateEntry.in_progress i) as [p|]; [|congruence].
  match goal with
  | Hp : _ <*> _ = inr _ |- _ => apply ap_inr in Hp as (g & z & Hg & Hz & ->)
  end.
  injection Hg as <-. simpl in Hz.
  assert (z = p) as ->.
  { unfold ge_le in Hz. repeat case_match; try done. by injection Hz. }
  done.
Qed.

Lemma entry_progress_errors (i : TaskUpdateEntry.input) :
  errors_at [Key "progress"] (TaskUpdateEntry.validate i) =
    match TaskUpdateEntry.in_progress i with
    | Some p => errors_at [Key "progress"] (ge_le 0 100 [Key "progress"] p)
    | None => []
    end.
Proof.
  unfold TaskUpdateEntry.validate, TaskUpdateEntry.validate_at.
  rewrite !errors_at_ap, !errors_at_inr, errors_at_required by done.
  destruct (TaskUpdateEntry.in_progress i) as [p|]; [|done].
  rewrite errors_at_ap, errors_at_inr. simpl. by rewrite app_nil_r.
Qed.

Lemma errors_at_elem {A} (loc : list loc_item) (v : Validated A)
    (e : ErrorDetails) :
  e ∈ errors_at loc v → ∃ errs, v = inl errs ∧ e ∈ errs.
Proof.
  unfold errors_at. intros He. apply list_elem_of_filter in He as [_ He].
  destruct v as [errs|a]; [by exists errs|by apply elem_of_nil in He].
Qed.

Lemma ge_le_errors_outside (loc : list loc_item) (p : Z) :
  (p < 0 ∨ 100 < p)%Z →
  ∃ ty, mkError ty loc ∈ errors_at loc (ge_le 0 100 loc p).
Proof.
  intros Hp. destruct (ge_le_inl 0 100 loc p Hp) as [ty ->].
  exists ty. unfold errors_at. simpl.
  rewrite filter_cons_True by done. left.
Qed.

Lemma ge_le_errors_inside (loc : list loc_item) (p : Z) :
  (0 ≤ p ≤ 100)%Z → errors_at loc (ge_le 0 100 loc p) = [].
Proof. intros Hp. by rewrite ge_le_inr. Qed.

(** C6. Validation of a task and of a task update entry rejects a
    [progress] below 0 or above 100 with a validation error located at
    [progress], reports nothing at [progress] for a value from 0 to 100 and
    keeps that value, so 0 and 100 are accepted; a task given without
    [progress] gets 0 (an entry gets none). *)
Theorem progress_is_validated_within_0_100 :
  (∀ (i : Task.input) (p : Z), Task.in_progress i = Some p →
     ((p < 0 ∨ 100 < p)%Z →
        ∃ errs ty, Task.validate i = inl errs
                   ∧ mkError ty [Key "progress"] ∈ errs)
     ∧ ((0 ≤ p ≤ 100)%Z →
        errors_at [Key "progress"] (Task.validate i) = []
        ∧ ∀ x, Task.validate i = inr x → Task.progress x = p))
  ∧ (∀ i : Task.input, Task.in_progress i = None →
       errors_at [Key "progress"] (Task.validate i) = []
       ∧ ∀ x, Task.validate i = inr x → Task.progress x = 0%Z)
  ∧ (∀ (i : TaskUpdateEntry.input) (p : Z),
       TaskUpdateEntry.in_progress i = Some p →
       ((p < 0 ∨ 100 < p)%Z →
          ∃ errs ty, TaskUpdateEntry.validate i = inl errs
                     ∧ mkError ty [Key "progress"] ∈ errs)
       ∧ ((0 ≤ p ≤ 100)%Z →
          errors_at [Key "progress"] (TaskUpdateEntry.validate i) = []
          ∧ ∀ x, TaskUpdateEntry.validate i = inr x →
                 TaskUpdateEntry.progress x = Some p))
  ∧ (∀ (title a b : string) (p : Z), p = 0%Z ∨ p = 100%Z →
       Task.validate
         (Task.mkInput (Some title) None (Some a) (Some b) None None None
            (Some p) None)
       = inr (Task.mk title None a b None "PENDING" None p []))
  ∧ (∀ (u : string) (p : Z), p = 0%Z ∨ p = 100%Z →
       TaskUpdateEntry.validate
         (TaskUpdateEntry.mkInput (Some u) None (Some p) None)
       = inr (TaskUpdateEntry.mk u None (Some p) None)).
Proof.
  split; [|split; [|split; [|split]]].
  - intros i p Hi. split.
    + intros Hp. destruct (ge_le_errors_outside [Key "progress"] p Hp) as [ty Hty].
      assert (He : mkError ty [Key "progress"]
                     ∈ errors_at [Key "progress"] (Task.validate i))
        by by rewrite task_progress_errors, Hi.
      apply errors_at_elem in He as (errs & ? & ?). by exists errs, ty.
    + intros Hp. split.
      * rewrite task_progress_errors, Hi. by apply ge_le_errors_inside.
      * intros x Hx. apply task_progress_validated in Hx.
        rewrite Hi, ge_le_inr in Hx by done. by injection Hx.
  - intros i Hi. split.
    + by rewrite task_progress_errors, Hi.
    + intros x Hx. apply task_progress_validated in Hx. by rewrite Hi in Hx.
  - intros i p Hi. split.
    + intros Hp. destruct (ge_le_errors_outside [Key "progress"] p Hp) as [ty Hty].
      assert (He : mkError ty [Key "progress"]
                     ∈ errors_at [Key "progress"] (TaskUpdateEntry.validate i))
        by by rewrite entry_progress_errors, Hi.
      apply errors_at_elem in He as (errs & ? & ?). by exists errs, ty.
    + intros Hp. split.
      * rewrite entry_progress_errors, Hi. by apply ge_le_errors_inside.
      * intros x Hx. apply entry_progress_validated in Hx.
        rewrite Hi in Hx. by destruct Hx.
  - by intros title a b p [-> | ->].
  - by intros u p [-> | ->].
Qed.

Section registration_body_facts.
Context `{Collaborators}.




End registration_body_facts.

(** * The properties at work on a sample store *)

Section sample_runs.
Local Existing Instance stub.collaborators.

Lemma register_rejects_exactly_taken_emails_witness :
  email_taken "ann@trimkart.io" (default [] (db stub.world !! "user"))
  ∧ register stub.ann_again stub.world
    = (inl (HTTPException 400 "Email already registered"), stub.world)
  ∧ ¬ email_taken "eve@trimkart.io" (default [] (db stub.world !! "user"))
  ∧ (register stub.eve stub.world).1
    = inr (IdMessage "00000000000000000000000e" "Registered successfully")
  ∧ length (default [] (db (register stub.eve stub.world).2 !! "user")) = 3
  ∧ unique_emails (default [] (db (register stub.eve stub.world).2 !! "user")).
Proof.
  assert (Hann : email_taken "ann@trimkart.io" (coll "user" stub.world)).
  { apply user_with_email_taken. vm_compute. by eexists. }
  assert (Heve : ¬ email_taken "eve@trimkart.io" (coll "user" stub.world)).
  { rewrite <-user_with_email_taken. vm_compute. by intros [? ?]. }
  assert (Huniq : unique_emails (coll "user" stub.world)).
  { change (coll "user" stub.world)
      with (default [] (db (register stub.bob
                              (register stub.ann stub.empty_world).2).2
                          !! "user")).
    apply (register_rejects_exactly_taken_emails stub.bob).
    apply (register_rejects_exactly_taken_emails stub.ann).
    change (unique_emails []).
    intros i j s1 s2 v Hi. by rewrite lookup_nil in Hi. }
  destruct (register_rejects_exactly_taken_emails stub.ann_again stub.world)
    as (Hiff & Hsame & _ & _).
  destruct (register_rejects_exactly_taken_emails stub.eve stub.world)
    as (_ & _ & Hfresh & Hkeep).
  destruct (Hfresh Heve) as [Hrun _].
  split; [exact Hann|]. split.
  { rewrite (surjective_pairing (register stub.ann_again stub.world)).
    by rewrite (proj2 Hiff Hann), (Hsame Hann). }
  split; [exact Heve|]. split; [by rewrite Hrun|].
  split; [by rewrite Hrun|]. by apply Hkeep.
Defined.

(** Addresses are compared as they are: the store has ann@trimkart.io, and
    Ann@trimkart.io registers. *)
Example register_is_case_sensitive :
  (register stub.ann stub.world).1
    = inl (HTTPException 400 "Email already registered")
  ∧ (register (UserRegister.mk "Ann" "Ann@trimkart.io" "x" "CEO" None)
       stub.world).1
    = inr (IdMessage "00000000000000000000000e" "Registered successfully").
Proof. by vm_compute. Qed.

Lemma login_succeeds_iff_found_and_verified_witness :
  ∃ r, (login (UserLogin.mk "ann@trimkart.io" "s3cret") stub.world).1 = inr r.
Proof.
  destruct (login_succeeds_iff_found_and_verified
              (UserLogin.mk "ann@trimkart.io" "s3cret") stub.world)
    as (Hiff & _).
  apply Hiff. eexists. split; [by vm_compute|by vm_compute].
Defined.

Example login_failures_look_alike :
  login (UserLogin.mk "ann@trimkart.io" "wrong") stub.world
    = login (UserLogin.mk "nobody@trimkart.io" "s3cret") stub.world.
Proof. by vm_compute. Qed.

Lemma set_task_status_changes_status_only_witness :
  (set_task_status stub.task_id "COMPLETED" stub.world).1
    = inr (Message "Status updated")
  ∧ (set_task_status stub.task_id "DONE" stub.world)
    = (inl (HTTPException 400 "Invalid status"), stub.world).
Proof.
  destruct (set_task_status_changes_status_only stub.task_id "COMPLETED"
              stub.world stub.task_oid [] [] stub.task_doc) as [Hok _].
  { reflexivity. }
  { by vm_compute. }
  { intros s Hs. by apply elem_of_nil in Hs. }
  destruct (set_task_status_changes_status_only stub.task_id "DONE"
              stub.world stub.task_oid [] [] stub.task_doc) as [_ Hbad].
  { reflexivity. }
  { by vm_compute. }
  { intros s Hs. by apply elem_of_nil in Hs. }
  split.
  - destruct Hok as [-> _]; [|done]. by apply (bool_decide_unpack _).
  - apply Hbad. by apply (bool_decide_unpack _).
Defined.


Lemma invalid_status_is_checked_first_witness :
  set_task_status "not an id" "DONE" stub.world
    = (inl (HTTPException 400 "Invalid status"), stub.world)
  ∧ set_task_status "not an id" "PENDING" stub.world
    = (inl (HTTPException 400 "Invalid id format"), stub.world).
Proof.
  destruct (invalid_status_is_checked_first "not an id" "DONE" stub.world)
    as (Hbad & _ & _).
  destruct (invalid_status_is_checked_first "not an id" "PENDING" stub.world)
    as (_ & Hid & _).
  split.
  - apply Hbad. by apply (bool_decide_unpack _).
  - apply Hid; [by apply (bool_decide_unpack _)|reflexivity].
Defined.

Lemma progress_is_validated_within_0_100_witness :
  (∃ errs ty,
     Task.validate
       (Task.mkInput (Some "Ship") None (Some "u1") (Some "u2") None None None
          (Some 150%Z) None) = inl errs
     ∧ mkError ty [Key "progress"] ∈ errs)
  ∧ Task.validate
      (Task.mkInput (Some "Ship") None (Some "u1") (Some "u2") None None None
         (Some 100%Z) None)
    = inr stub.a_task.
Proof.
  destruct progress_is_validated_within_0_100 as (Htask & _ & _ & Hedge & _).
  split.
  - apply (Htask _ 150%Z); [reflexivity|lia].
  - apply (Hedge "Ship" "u1" "u2" 100%Z). by right.
Defined.




(** The example of the specification: a task created with progress 100 is
    PENDING; after its status is set to COMPLETED its progress is still
    100. *)
Example completed_task_keeps_progress :
  (λ s : ObjectId * doc, (s.2 !! "status", s.2 !! "progress"))
    <$> coll "task" stub.world
    = [(Some (VStr "PENDING"), Some (VInt 100))]
  ∧ (λ s : ObjectId * doc, (s.2 !! "status", s.2 !! "progress"))
      <$> coll "task" (set_task_status stub.task_id "COMPLETED" stub.world).2
    = [(Some (VStr "COMPLETED"), Some (VInt 100))].
Proof. by vm_compute. Qed.

End sample_runs.

(** * Further properties of the handlers *)

(** ** The order of a sorted listing *)

Lemma ascii_compare_lt_trans (a b c : Ascii.ascii) :
  Ascii.compare a b = Lt → Ascii.compare b c = Lt → Ascii.compare a c = Lt.
Proof.
  unfold Ascii.compare. rewrite !N.compare_lt_iff. apply N.lt_trans.
Qed.

Lemma string_compare_lt_trans (a b c : string) :
  String.compare a b = Lt → String.compare b c = Lt → String.compare a c = Lt.
Proof.
  revert b c. induction a as [|x a IH]; intros [|y b] [|z c]; simpl; try done.
  destruct (Ascii.compare x y) eqn:Hxy; try done.
  - apply Ascii.compare_eq_iff in Hxy as ->.
    destruct (Ascii.compare y z); try done. apply IH.
  - destruct (Ascii.compare y z) eqn:Hyz; try done.
    + apply Ascii.compare_eq_iff in Hyz as <-. by rewrite Hxy.
    + by rewrite (ascii_compare_lt_trans x y z).
Qed.

Lemma string_ltb_asym (a b : string) :
  String.ltb a b = true → String.ltb b a = false.
Proof.
  unfold String.ltb. rewrite (String.compare_antisym a b).
  by destruct (String.compare b a).
Qed.

Lemma string_ltb_neg_trans (a b c : string) :
  String.ltb a b = false → String.ltb b c = false → String.ltb a c = false.
Proof.
  unfold String.ltb. intros Hab Hbc.
  destruct (String.compare a c) eqn:Hac; try done. exfalso.
  destruct (String.compare a b) eqn:Hab'; try done.
  - apply String.compare_eq_iff in Hab' as ->. by rewrite Hac in Hbc.
  - destruct (String.compare b c) eqn:Hbc'; try done.
    + apply String.compare_eq_iff in Hbc' as ->. by rewrite Hac in Hab'.
    + assert (Hca : String.compare c a = Lt).
      { apply (string_compare_lt_trans c b a).
        - rewrite String.compare_antisym. by rewrite Hbc'.
        - rewrite String.compare_antisym. by rewrite Hab'. }
      rewrite String.compare_antisym, Hac in Hca. done.
Qed.

Lemma bson_ltb_asym (a b : option value) :
  bson_ltb a b = true → bson_ltb b a = false.
Proof.
  destruct a as [[[]|]|], b as [[[]|]|]; simpl; try done.
  - apply string_ltb_asym.
  - rewrite Z.ltb_lt, Z.ltb_ge. lia.
  - rewrite Z.ltb_lt, Z.ltb_ge. lia.
  - apply string_ltb_asym.
Qed.

Lemma bson_ltb_neg_trans (a b c : option value) :
  bson_ltb a b = false → bson_ltb b c = false → bson_ltb a c = false.
Proof.
  destruct a as [[[]|]|], b as [[[]|]|], c as [[[]|]|]; simpl; try done;
    try apply string_ltb_neg_trans; rewrite ?Z.ltb_ge; lia.
Qed.

Lemma insert_desc_sorted (key : string) (x : doc) (l : list doc) :
  StronglySorted (not_before key) l →
  StronglySorted (not_before key) (insert_desc key x l).
Proof.
  induction 1 as [|y l Hl IH Hy]; simpl.
  - by repeat constructor.
  - destruct (bson_ltb (x !! key) (y !! key)) eqn:Hxy.
    + constructor; [done|]. rewrite insert_desc_Permutation.
      constructor; [|done]. by apply bson_ltb_asym.
    + constructor; [by constructor|]. constructor; [done|].
      eapply Forall_impl; [exact Hy|]. intros z Hz.
      by apply (bson_ltb_neg_trans _ (y !! key)).
Qed.

Lemma sort_desc_sorted (key : string) (l : list doc) :
  StronglySorted (not_before key) (sort_desc key l).
Proof.
  induction l as [|x l IH]; simpl; [constructor|]. by apply insert_desc_sorted.
Qed.

Lemma insert_asc_Permutation (key : string) (x : doc) (l : list doc) :
  insert_asc key x l ≡ₚ x :: l.
Proof.
  induction l as [|y l IH]; simpl; [done|].
  destruct (bson_ltb _ _); [|done].
  rewrite IH. apply Permutation_swap.
Qed.

Lemma sort_asc_Permutation (key : string) (l : list doc) :
  sort_asc key l ≡ₚ l.
Proof.
  induction l as [|x l IH]; simpl; [done|].
  rewrite insert_asc_Permutation. by rewrite IH.
Qed.



Lemma StronglySorted_lookup_lt {A} (R : relation A) (l : list A)
    (i j : nat) (a b : A) :
  StronglySorted R l → i < j → l !! i = Some a → l !! j = Some b → R a b.
Proof.
  intros Hl. revert i j. induction Hl as [|x l Hl IH Hx]; intros i j Hij Hi Hj.
  - by rewrite lookup_nil in Hi.
  - destruct j as [|j]; [lia|]. simpl in Hj. destruct i as [|i].
    + injection Hi as <-. rewrite Forall_forall in Hx. apply Hx.
      by eapply list_elem_of_lookup_2.
    + simpl in Hi. apply (IH i j); [lia|done|done].
Qed.

Lemma exposed_dict_to_dict (s : ObjectId * doc) :
  exposed_dict (to_dict s) = exposed s.
Proof.
  unfold exposed_dict. rewrite to_dict_id.
  unfold exposed, to_dict. by rewrite delete_insert_eq.
Qed.

Lemma exposed_dict_other (d : doc) (k : string) :
  k ≠ "id" → k ≠ "_id" → exposed_dict d !! k = d !! k.
Proof.
  intros H1 H2. unfold exposed_dict.
  destruct (d !! "_id") as [[[]|]|]; try done.
  rewrite lookup_insert_ne by done. by rewrite lookup_delete_ne.
Qed.

Lemma exposed_sorted (l : collection) :
  exposed_dict <$> (to_dict <$> l) = exposed <$> l.
Proof.
  rewrite <-list_fmap_compose. apply list_fmap_ext.
  intros i s _. apply exposed_dict_to_dict.
Qed.

Lemma exposed_dict_Permutation (l : list doc) (c : collection) :
  l ≡ₚ to_dict <$> c → exposed_dict <$> l ≡ₚ exposed <$> c.
Proof. intros ->. by rewrite exposed_sorted. Qed.

(** ** Listing tasks *)


(** X2. The tasks [list_tasks] returns are in descending order of
    [created_at]: no returned task sorts before a later one, so of two
    returned tasks that carry creation dates the earlier in the list is not
    the older. *)
Theorem list_tasks_is_newest_first
    (status assigned_to department_id : option string) (w : World) :
  ∃ l, (list_tasks status assigned_to department_id w).1 = inr (Docs l)
       ∧ StronglySorted (not_before "created_at") l
       ∧ ∀ i j a b ta tb,
           i < j → l !! i = Some a → l !! j = Some b →
           a !! "created_at" = Some (VDate ta) →
           b !! "created_at" = Some (VDate tb) → (tb ≤ ta)%Z.
Proof.
  eexists. split; [by rewrite list_tasks_run|].
  assert (Hs : StronglySorted (not_before "created_at")
                 (exposed_dict <$> sort_desc "created_at" (to_dict <$>
                    filter (λ s, satisfies "status" status s
                                ∧ satisfies "assigned_to" assigned_to s
                                ∧ satisfies "department_id" department_id s)
                      (coll "task" w)))).
  { apply StronglySorted_fmap with (R1 := not_before "created_at");
      [|apply sort_desc_sorted].
    intros a b. unfold not_before. by rewrite !exposed_dict_other. }
  split; [exact Hs|].
  intros i j a b ta tb Hij Ha Hb Hta Htb.
  pose proof (StronglySorted_lookup_lt _ _ i j a b Hs Hij Ha Hb) as Hab.
  unfold not_before in Hab. rewrite Hta, Htb in Hab. simpl in Hab.
  by apply Z.ltb_ge in Hab.
Qed.

(** ** Departments *)

Lemma insert_asc_Forall (P : doc → Prop) (key : string) (x : doc) (l : list doc) :
  P x → Forall P l → Forall P (insert_asc key x l).
Proof.
  intros Hx Hl. induction Hl as [|y l Hy Hl IH]; simpl.
  - by constructor.
  - destruct (bson_ltb _ _); by repeat constructor.
Qed.

Lemma sort_asc_Forall (P : doc → Prop) (key : string) (l : list doc) :
  Forall P l → Forall P (sort_asc key l).
Proof.
  induction 1 as [|x l Hx Hl IH]; simpl; [constructor|].
  by apply insert_asc_Forall.
Qed.

Lemma to_dict_has_object_id (c : collection) :
  Forall has_object_id (to_dict <$> c).
Proof.
  apply Forall_fmap, Forall_forall. intros s _. exists s.1. apply to_dict_id.
Qed.

Lemma list_departments_run (w : World) :
  list_departments w =
    (inr (Docs (exposed_dict <$>
            sort_asc "name" (to_dict <$> coll "department" w))), w).
Proof.
  unfold list_departments, bind at 1, db_find. rewrite find_all.
  unfold bind at 1. rewrite for_each_rename_id; [done|].
  apply sort_asc_Forall, to_dict_has_object_id.
Qed.



Lemma coll_written (name : string) (c : collection)
    (m : gmap string collection) (n : nat) :
  coll name {| db := <[name := c]> m; ticks := n |} = c.
Proof. unfold coll. simpl. by rewrite lookup_insert_eq. Qed.

Lemma coll_written_other (name name' : string) (c : collection)
    (m : gmap string collection) (n : nat) :
  name ≠ name' →
  coll name' {| db := <[name := c]> m; ticks := n |}
    = default [] (m !! name').
Proof. intros Hn. unfold coll. simpl. by rewrite lookup_insert_ne. Qed.

Section creation_facts.
Context `{Collaborators}.

Lemma create_department_run (dep : Department.t) (w : World) :
  create_department dep w =
    (inr (Id (oid_hex (new_object_id (2 + ticks w)))),
     {| db := <["department" := coll "department" w
                  ++ [(new_object_id (2 + ticks w),
                       created_department_doc dep w)]]> (db w);
        ticks := 3 + ticks w |}).
Proof. reflexivity. Qed.

Lemma create_task_run (task : Task.t) (w : World) :
  create_task task w =
    (inr (Id (oid_hex (new_object_id (2 + ticks w)))),
     {| db := <["task" := coll "task" w
                  ++ [(new_object_id (2 + ticks w), created_task_doc task w)]]>
                (db w);
        ticks := 3 + ticks w |}).
Proof. reflexivity. Qed.

(** X4. [create_department] checks nothing about the name: in every store,
    also one that already has a department of that name, it stores the
    department after the existing ones, with the clock's two readings as
    [created_at] and [updated_at], and returns the new identifier;
    [list_departments] then returns one more department, the new one among
    them under that identifier. *)
Theorem created_department_is_listed (dep : Department.t) (w : World) :
  let i := new_object_id (2 + ticks w) in
  let d := created_department_doc dep w in
  let w' := (create_department dep w).2 in
  (create_department dep w).1 = inr (Id (oid_hex i))
  ∧ coll "department" w' = coll "department" w ++ [(i, d)]
  ∧ d !! "name" = Some (VStr (Department.name dep))
  ∧ d !! "created_at" = Some (VDate (utcnow (ticks w)))
  ∧ d !! "updated_at" = Some (VDate (utcnow (1 + ticks w)))
  ∧ ∃ l, list_departments w' = (inr (Docs l), w')
         ∧ length l = S (length (coll "department" w))
         ∧ ∃ r, r ∈ l ∧ r !! "id" = Some (VStr (oid_hex i))
                ∧ r !! "name" = Some (VStr (Department.name dep)).
Proof.
  intros i d w'. unfold w'. rewrite create_department_run. cbn [fst snd].
  fold i d. rewrite coll_written.
  split; [done|]. split; [done|]. split; [done|]. split; [done|].
  split; [done|].
  eexists. split; [apply list_departments_run|].
  rewrite coll_written. split.
  - rewrite length_fmap, sort_asc_Permutation, length_fmap, length_app.
    simpl. lia.
  - exists (exposed (i, d)). split.
    + assert (Hp : exposed_dict <$> sort_asc "name"
                     (to_dict <$> coll "department" w ++ [(i, d)])
                   ≡ₚ exposed <$> coll "department" w ++ [(i, d)])
        by apply exposed_dict_Permutation, sort_asc_Permutation.
      rewrite Hp. apply list_elem_of_fmap. exists (i, d).
      split; [done|]. apply elem_of_app. right. left.
    + split; [apply exposed_id|]. by rewrite exposed_other.
Qed.

End creation_facts.

(** ** Tasks, from creation on *)

Section task_life_facts.
Context `{Collaborators}.

Lemma set_task_status_ok (task_id status : string) (w : World)
    (o : ObjectId) (l1 l2 : collection) (d : doc) :
  parse_object_id task_id = Some o →
  coll "task" w = l1 ++ (o, d) :: l2 →
  (∀ s, s ∈ l1 → s.1 ≠ o) →
  status ∈ ["PENDING"; "IN_PROGRESS"; "COMPLETED"] →
  set_task_status task_id status w =
    (inr (Message "Status updated"),
     {| db := <["task" := l1 ++ (o, {[ "status" := VStr status;
                                      "updated_at" := VDate (utcnow (ticks w)) ]}
                                   ∪ d) :: l2]> (db w);
        ticks := S (ticks w) |}).
Proof.
  intros Hp Hc Hl1 Hs. rewrite set_task_status_valid by done.
  rewrite Hp, Hc. by erewrite update_one_first.
Qed.

Lemma add_task_update_ok (task_id : string) (update : TaskUpdateEntry.t)
    (w : World) (o : ObjectId) (l1 l2 : collection) (d : doc)
    (us : list subdoc) :
  parse_object_id task_id = Some o →
  coll "task" w = l1 ++ (o, d) :: l2 →
  (∀ s, s ∈ l1 → s.1 ≠ o) →
  d !! "updates" = Some (VList us) →
  ∃ n' : nat, (ticks w ≤ n')%nat ∧
    add_task_update task_id update w =
      (inr (Message "Update added"),
       {| db := <["task" := l1 ++ (o, {[ "updated_at" := VDate (utcnow n') ]}
                     ∪ <["updates" := VList (us ++ [appended_entry update w])]> d)
                   :: l2]> (db w);
          ticks := S n' |}).
Proof.
  intros Hp Hc Hl1 Hus.
  exists (match TaskUpdateEntry.created_at update with
          | Some _ => ticks w
          | None => S (ticks w)
          end).
  split; [destruct (TaskUpdateEntry.created_at update); lia|].
  rewrite (add_task_update_run _ _ _ o) by done. rewrite Hc.
  erewrite update_one_first; [done|done|].
  unfold apply_update, apply_push. cbn [op_push op_set]. by rewrite Hus.
Qed.

Lemma add_task_update_bad_id (task_id : string) (update : TaskUpdateEntry.t)
    (w : World) :
  parse_object_id task_id = None →
  (add_task_update task_id update w).1
    = inl (HTTPException 400 "Invalid id format")
  ∧ db (add_task_update task_id update w).2 = db w.
Proof.
  intros Hp. unfold add_task_update.
  destruct update as [uid nt pr [ts|]].
  - unfold bind at 1.
    change (truthy (TaskUpdateEntry.model_dump
                      (TaskUpdateEntry.mk uid nt pr (Some ts)) !! "created_at"))
      with true.
    cbn [negb]. unfold ret at 1. unfold bind at 1, oid. by rewrite Hp.
  - unfold bind at 1.
    change (truthy (TaskUpdateEntry.model_dump
                      (TaskUpdateEntry.mk uid nt pr None) !! "created_at"))
      with false.
    cbn [negb]. unfold bind at 1, now at 1. unfold ret at 1.
    unfold bind at 1, oid. by rewrite Hp.
Qed.

(** X5. [create_task] stores the task as dumped, with the clock's two
    readings as [created_at] and [updated_at], after the existing tasks, and
    returns the new identifier.  [list_tasks] then returns it under that
    identifier, without filters as well as filtered by the task's own
    status, assignee and department. *)
Theorem created_task_is_listed (task : Task.t) (w : World) :
  let i := new_object_id (2 + ticks w) in
  let d := created_task_doc task w in
  let w' := (create_task task w).2 in
  (create_task task w).1 = inr (Id (oid_hex i))
  ∧ coll "task" w' = coll "task" w ++ [(i, d)]
  ∧ d !! "status" = Some (VStr (Task.status task))
  ∧ d !! "progress" = Some (VInt (Task.progress task))
  ∧ d !! "updates"
      = Some (VList (TaskUpdateEntry.model_dump <$> Task.updates task))
  ∧ d !! "created_at" = Some (VDate (utcnow (ticks w)))
  ∧ ∀ st a dep,
      st = None ∨ st = Some (Task.status task) →
      a = None ∨ a = Some (Task.assigned_to task) →
      dep = None ∨ dep = Task.department_id task →
      ∃ l, list_tasks st a dep w' = (inr (Docs l), w') ∧ exposed (i, d) ∈ l.
Proof.
  intros i d w'. unfold w'. rewrite create_task_run. cbn [fst snd].
  fold i d. rewrite coll_written.
  do 6 (split; [done|]).
  intros st a dep Hst Ha Hdep.
  eexists. split; [apply list_tasks_run|]. rewrite coll_written.
  match goal with
  | |- _ ∈ exposed_dict <$> sort_desc _ (to_dict <$> ?found) =>
      assert (Hp : exposed_dict <$> sort_desc "created_at" (to_dict <$> found)
                     ≡ₚ exposed <$> found)
        by apply exposed_dict_Permutation, sort_desc_Permutation;
      rewrite Hp
  end.
  apply list_elem_of_fmap. exists (i, d). split; [done|].
  apply list_elem_of_filter. split; [|apply elem_of_app; right; left].
  split; [|split].
  - destruct Hst as [->| ->]; [done|]. simpl.
    destruct (Task.status task) eqn:E; [done|]. by rewrite <-E.
  - destruct Ha as [->| ->]; [done|]. simpl.
    destruct (Task.assigned_to task) eqn:E; [done|]. by rewrite <-E.
  - destruct Hdep as [->| ->]; [done|]. unfold satisfies.
    destruct (Task.department_id task) as [[|x r]|] eqn:E; [done| |done].
    subst d. unfold created_task_doc, Task.model_dump. by rewrite E.
Qed.

(** X6. The identifier [create_task] returns names the task it stored:
    provided the driver reads the identifier's text back as the identifier
    and no older task has it, [set_task_status] with that text and a status
    of the three succeeds on the store [create_task] left, and the task then
    has the new status, the progress, updates and creation date it was
    created with, and the later clock reading as [updated_at]. *)
Theorem created_task_status_can_be_set
    (task : Task.t) (status : string) (w : World) :
  let i := new_object_id (2 + ticks w) in
  parse_object_id (oid_hex i) = Some i →
  (∀ s, s ∈ coll "task" w → s.1 ≠ i) →
  status ∈ ["PENDING"; "IN_PROGRESS"; "COMPLETED"] →
  let w1 := (create_task task w).2 in
  (create_task task w).1 = inr (Id (oid_hex i))
  ∧ ∃ w2 d2,
      set_task_status (oid_hex i) status w1
        = (inr (Message "Status updated"), w2)
      ∧ coll "task" w2 = coll "task" w ++ [(i, d2)]
      ∧ d2 !! "status" = Some (VStr status)
      ∧ d2 !! "progress" = Some (VInt (Task.progress task))
      ∧ d2 !! "updates"
          = Some (VList (TaskUpdateEntry.model_dump <$> Task.updates task))
      ∧ d2 !! "created_at" = Some (VDate (utcnow (ticks w)))
      ∧ d2 !! "updated_at" = Some (VDate (utcnow (3 + ticks w))).
Proof.
  intros i Hp Hfresh Hs w1. unfold w1. rewrite create_task_run. cbn [fst snd].
  fold i. split; [done|].
  eexists _, _. split.
  { apply (set_task_status_ok _ _ _ i (coll "task" w) []); try done.
    apply coll_written. }
  rewrite coll_written. split; [done|].
  split; [by apply union_lookup_set|].
  split; [by rewrite union_lookup_frame|].
  split; [by rewrite union_lookup_frame|].
  split; [by rewrite union_lookup_frame|].
  by apply union_lookup_set.
Qed.

(** X7. [add_task_update] with an id the driver cannot parse answers 400,
    "Invalid id format", and the database is as it was; with an id that
    parses but that no task has it answers 404, "Task not found", and every
    collection is as it was.  Nothing is appended in either case. *)
Theorem add_task_update_errors_change_nothing
    (task_id : string) (update : TaskUpdateEntry.t) (w : World) :
  (parse_object_id task_id = None →
     (add_task_update task_id update w).1
       = inl (HTTPException 400 "Invalid id format")
     ∧ db (add_task_update task_id update w).2 = db w)
  ∧ (∀ o, parse_object_id task_id = Some o →
          (∀ s, s ∈ coll "task" w → s.1 ≠ o) →
          (add_task_update task_id update w).1
            = inl (HTTPException 404 "Task not found")
          ∧ ∀ name, coll name (add_task_update task_id update w).2
                    = coll name w).
Proof.
  split; [apply add_task_update_bad_id|].
  intros o Hp Habs. rewrite (add_task_update_run _ _ _ o) by done.
  rewrite update_one_absent by done. split; [done|].
  intros name. cbn [snd]. unfold coll at 1. cbn [db].
  destruct (decide ("task" = name)) as [<-|Hne].
  - by rewrite lookup_insert_eq.
  - by rewrite lookup_insert_ne.
Qed.

(** X8. Two updates added to the same task one after the other both
    succeed, and the task's updates are then the earlier ones followed by
    the first entry and then the second; the other tasks are as before. *)
Theorem add_task_update_twice_keeps_call_order
    (task_id : string) (u1 u2 : TaskUpdateEntry.t) (w : World)
    (o : ObjectId) (l1 l2 : collection) (d : doc) (us : list subdoc) :
  parse_object_id task_id = Some o →
  coll "task" w = l1 ++ (o, d) :: l2 →
  (∀ s, s ∈ l1 → s.1 ≠ o) →
  d !! "updates" = Some (VList us) →
  let w1 := (add_task_update task_id u1 w).2 in
  (add_task_update task_id u1 w).1 = inr (Message "Update added")
  ∧ ∃ w2 d2,
      add_task_update task_id u2 w1 = (inr (Message "Update added"), w2)
      ∧ coll "task" w2 = l1 ++ (o, d2) :: l2
      ∧ d2 !! "updates"
          = Some (VList (us ++ [appended_entry u1 w; appended_entry u2 w1])).
Proof.
  intros Hp Hc Hl1 Hus w1. unfold w1.
  destruct (add_task_update_ok task_id u1 w o l1 l2 d us) as (n1 & _ & E1);
    [done..|].
  rewrite E1. cbn [fst snd]. split; [done|].
  set (d1 := {[ "updated_at" := VDate (utcnow n1) ]}
               ∪ <["updates" := VList (us ++ [appended_entry u1 w])]> d).
  set (W1 := {| db := <["task" := l1 ++ (o, d1) :: l2]> (db w);
                ticks := S n1 |}).
  destruct (add_task_update_ok task_id u2 W1 o l1 l2 d1
              (us ++ [appended_entry u1 w])) as (n2 & _ & E2).
  - done.
  - apply coll_written.
  - done.
  - unfold d1. rewrite union_lookup_frame by done. apply lookup_insert_eq.
  - rewrite E2. eexists _, _. split; [done|]. rewrite coll_written.
    split; [done|].
    rewrite union_lookup_frame by done. rewrite lookup_insert_eq.
    by rewrite <-app_assoc.
Qed.

End task_life_facts.

(** ** A registered user *)

Lemma filter_everything {A} (P : A → Prop) `{∀ x, Decision (P x)} (l : list A) :
  (∀ x, P x) → filter P l = l.
Proof.
  intros HP. induction l as [|x l IH]; [done|].
  rewrite filter_cons_True by done. by rewrite IH.
Qed.

Lemma user_with_email_snoc (e : string) (c : collection) (s : ObjectId * doc) :
  ¬ email_taken e c → s.2 !! "email" = Some (VStr e) →
  user_with_email e (c ++ [s]) = Some s.
Proof.
  intros Hn Hs. unfold user_with_email. rewrite filter_app.
  replace (filter (λ s, s.2 !! "email" = Some (VStr e)) c)
    with (@nil (ObjectId * doc)).
  - by rewrite filter_cons_True.
  - symmetry. induction c as [|x c IH]; [done|].
    rewrite filter_cons_False.
    + apply IH. intros (y & Hy & Ey). apply Hn. exists y. split; [by right|done].
    + intros Ex. apply Hn. exists x. split; [left|done].
Qed.

Section registered_user_facts.
Context `{Collaborators}.

(** X9. A user who has just registered can log in: where the address was
    free and the verifier accepts a password against the hash made of it,
    [login] with the registered address and password succeeds on the store
    [register] left and returns that user, under the identifier [register]
    returned, with the registered name, address and role and without the
    hash.  A password the verifier rejects against that hash gets 401. *)
Theorem registered_user_can_log_in (payload : UserRegister.t) (w : World) :
  let e := UserRegister.email payload in
  let pw := UserRegister.password payload in
  let i := new_object_id (3 + ticks w) in
  ¬ email_taken e (coll "user" w) →
  pwd_verify pw (VStr (pwd_hash (ticks w) pw)) = true →
  let w' := (register payload w).2 in
  (register payload w).1 = inr (IdMessage (oid_hex i) "Registered successfully")
  ∧ (∃ u, login (UserLogin.mk e pw) w'
            = (inr (MessageUser "Login successful" u), w')
          ∧ u !! "id" = Some (VStr (oid_hex i))
          ∧ u !! "name" = Some (VStr (UserRegister.name payload))
          ∧ u !! "email" = Some (VStr e)
          ∧ u !! "role" = Some (VStr (UserRegister.role payload))
          ∧ u !! "password_hash" = None)
  ∧ ∀ pw', pwd_verify pw' (VStr (pwd_hash (ticks w) pw)) = false →
           login (UserLogin.mk e pw') w'
             = (inl (HTTPException 401 "Invalid credentials"), w').
Proof.
  intros e pw i Hfree Hv w'. unfold w'.
  rewrite (register_fresh _ _ Hfree). cbn [fst snd]. fold e pw i.
  split; [done|].
  assert (Hu : user_with_email e
                 (coll "user" w ++ [(i, registered_doc payload w)])
               = Some (i, registered_doc payload w))
    by by apply user_with_email_snoc.
  split.
  - exists (public_user (i, registered_doc payload w)). split.
    + rewrite login_run. cbn [UserLogin.email UserLogin.password].
      rewrite coll_written, Hu.
      change (stored_hash (i, registered_doc payload w))
        with (VStr (pwd_hash (ticks w) pw)).
      by rewrite Hv.
    + split; [apply public_user_id|].
      split; [by rewrite public_user_other|].
      split; [by rewrite public_user_other|].
      split; [by rewrite public_user_other|apply public_user_no_hash].
  - intros pw' Hv'. rewrite login_run.
    cbn [UserLogin.email UserLogin.password]. rewrite coll_written, Hu.
    change (stored_hash (i, registered_doc payload w))
      with (VStr (pwd_hash (ticks w) pw)).
    by rewrite Hv'.
Qed.

(** X10. A user who has just registered is listed: [list_users] without
    filters returns the users listed before followed by the new one, and
    filtered by the new user's own role and department it returns the new
    user too; the listed record carries the identifier [register] returned
    and no hash. *)
Theorem registered_user_is_listed (payload : UserRegister.t) (w : World) :
  let i := new_object_id (3 + ticks w) in
  let new := (i, registered_doc payload w) in
  ¬ email_taken (UserRegister.email payload) (coll "user" w) →
  let w' := (register payload w).2 in
  list_users None None w'
    = (inr (Docs ((public_user <$> coll "user" w) ++ [public_user new])), w')
  ∧ (∃ l, list_users (Some (UserRegister.role payload))
            (UserRegister.department_id payload) w' = (inr (Docs l), w')
          ∧ public_user new ∈ l)
  ∧ public_user new !! "id" = Some (VStr (oid_hex i))
  ∧ public_user new !! "password_hash" = None
  ∧ public_user new !! "email" = Some (VStr (UserRegister.email payload)).
Proof.
  intros i new Hfree w'. unfold w'.
  rewrite (register_fresh _ _ Hfree). cbn [snd]. fold i new.
  split; [|split].
  - rewrite list_users_run, coll_written.
    rewrite filter_everything by done. by rewrite fmap_app.
  - eexists. split; [apply list_users_run|]. rewrite coll_written.
    apply list_elem_of_fmap. exists new. split; [done|].
    apply list_elem_of_filter. split; [|apply elem_of_app; right; left].
    split.
    + simpl. destruct (UserRegister.role payload) eqn:E; [done|].
      subst new. unfold registered_doc. by rewrite E.
    + unfold satisfies.
      destruct (UserRegister.department_id payload) as [[|x r]|] eqn:E;
        [done| |done].
      subst new. unfold registered_doc. by rewrite E.
  - split; [apply public_user_id|].
    split; [apply public_user_no_hash|by rewrite public_user_other].
Qed.

End registered_user_facts.

(** ** Validated entities *)

Lemma errors_of_elem {A} (v : Validated A) (e : ErrorDetails) :
  e ∈ errors_of v → ∃ errs, v = inl errs ∧ e ∈ errs.
Proof.
  destruct v as [errs|a]; simpl; [by exists errs|].
  intros He. by apply elem_of_nil in He.
Qed.

Lemma literal_inr (allowed : list string) (loc : list loc_item) (s x : string) :
  literal allowed loc s = inr x → x = s ∧ s ∈ allowed.
Proof.
  unfold literal. destruct (bool_decide (s ∈ allowed)) eqn:Hs; [|done].
  intros [= <-]. by apply bool_decide_eq_true in Hs.
Qed.

Lemma literal_inl (allowed : list string) (loc : list loc_item) (s : string) :
  s ∉ allowed → literal allowed loc s = inl [mkError "literal_error" loc].
Proof. intros Hs. unfold literal. by rewrite bool_decide_eq_false_2. Qed.

Lemma ge_le_inr_inv (lo hi : Z) (loc : list loc_item) (z x : Z) :
  ge_le lo hi loc z = inr x → x = z ∧ (lo ≤ z ≤ hi)%Z.
Proof.
  unfold ge_le. destruct (Z.ltb_spec z lo); [done|].
  destruct (Z.ltb_spec hi z); [done|]. intros [= <-]. lia.
Qed.

Lemma entry_validated_at (loc : list loc_item) (i : TaskUpdateEntry.input)
    (x : TaskUpdateEntry.t) :
  TaskUpdateEntry.validate_at loc i = inr x →
  TaskUpdateEntry.progress x = TaskUpdateEntry.in_progress i ∧ entry_ok x.
Proof.
  unfold TaskUpdateEntry.validate_at, entry_ok. intros Hv. invert_ap. simpl.
  destruct (TaskUpdateEntry.in_progress i) as [p|]; [|by simplify_eq].
  match goal with
  | Hp : _ <*> _ = inr _ |- _ => apply ap_inr in Hp as (g & z & Hg & Hz & ->)
  end.
  injection Hg as <-. apply ge_le_inr_inv in Hz as [-> ?]. done.
Qed.

Lemma v_list_entries_inr (loc : list loc_item) (n : nat)
    (l : list TaskUpdateEntry.input) (xs : list TaskUpdateEntry.t) :
  v_list TaskUpdateEntry.validate_at loc n l = inr xs →
  Forall2 (λ i x, TaskUpdateEntry.progress x = TaskUpdateEntry.in_progress i
                  ∧ entry_ok x) l xs.
Proof.
  revert n xs. induction l as [|i l IH]; intros n xs; cbn [v_list].
  - intros [= <-]. constructor.
  - intros Hv. invert_ap. constructor; [by eapply entry_validated_at|].
    by eapply IH.
Qed.

(** X11. A task that passes validation is well formed: its status is one
    of the three (PENDING when none was given), its progress is from 0 to
    100, and its updates are the given ones, one for one, each with a
    progress from 0 to 100 or none.  So a task body whose status is not one
    of the three, or one of whose updates has a progress outside 0 to 100,
    is rejected. *)
Theorem validated_task_is_well_formed (i : Task.input) :
  (∀ x, Task.validate i = inr x →
     Task.status x ∈ TaskStatus
     ∧ (Task.in_status i = None → Task.status x = "PENDING")
     ∧ (0 ≤ Task.progress x ≤ 100)%Z
     ∧ Forall entry_ok (Task.updates x)
     ∧ length (Task.updates x) = length (default [] (Task.in_updates i)))
  ∧ (∀ s, Task.in_status i = Some s → s ∉ TaskStatus →
       ∃ errs, Task.validate i = inl errs
               ∧ mkError "literal_error" [Key "status"] ∈ errs)
  ∧ (∀ l e p, Task.in_updates i = Some l → e ∈ l →
       TaskUpdateEntry.in_progress e = Some p → (p < 0 ∨ 100 < p)%Z →
       ∃ errs, Task.validate i = inl errs).
Proof.
  assert (Hwf : ∀ x, Task.validate i = inr x →
     Task.status x ∈ TaskStatus
     ∧ (Task.in_status i = None → Task.status x = "PENDING")
     ∧ (0 ≤ Task.progress x ≤ 100)%Z
     ∧ Forall2 (λ i x, TaskUpdateEntry.progress x = TaskUpdateEntry.in_progress i
                       ∧ entry_ok x)
         (default [] (Task.in_updates i)) (Task.updates x)).
  { unfold Task.validate. intros x Hx. invert_ap. simpl.
    repeat split.
    - destruct (Task.in_status i) as [s|].
      + match goal with
        | Hl : literal _ _ _ = inr _ |- _ => apply literal_inr in Hl as [-> ?]
        end. done.
      + simplify_eq. by apply (bool_decide_unpack _).
    - intros Hs. rewrite Hs in *. by simplify_eq.
    - destruct (Task.in_progress i) as [p|].
      + match goal with
        | Hg : ge_le _ _ _ _ = inr _ |- _ => apply ge_le_inr_inv in Hg as [-> ?]
        end. lia.
      + simplify_eq. lia.
    - destruct (Task.in_progress i) as [p|].
      + match goal with
        | Hg : ge_le _ _ _ _ = inr _ |- _ => apply ge_le_inr_inv in Hg as [-> ?]
        end. lia.
      + simplify_eq. lia.
    - destruct (Task.in_updates i) as [l|]; simpl.
      + by eapply v_list_entries_inr.
      + simplify_eq. constructor. }
  split; [|split].
  - intros x Hx. destruct (Hwf x Hx) as (H1 & H2 & H3 & H4).
    split; [done|]. split; [done|]. split; [done|]. split.
    + clear -H4. induction H4 as [|? ? ? ? [_ ?]]; by constructor.
    + symmetry. by eapply Forall2_length.
  - intros s Hs Hbad.
    apply errors_of_elem. unfold Task.validate.
    rewrite !errors_of_ap, Hs, literal_inl by done.
    rewrite !elem_of_app. left. left. left. right. left.
  - intros l e p Hl He Hp Hout.
    destruct (Task.validate i) as [errs|x] eqn:Hv; [by exists errs|].
    exfalso. destruct (Hwf x eq_refl) as (_ & _ & _ & H4).
    rewrite Hl in H4. simpl in H4.
    apply list_elem_of_lookup in He as [n Hn].
    destruct (Forall2_lookup_l _ _ _ _ _ H4 Hn) as (y & _ & Hy & Hok).
    unfold entry_ok in Hok. rewrite Hy, Hp in Hok. lia.
Qed.

Section registration_fields_facts.
Context `{Collaborators}.

(** X12. A registration body that passes validation has a role among MD,
    CEO, COO, MANAGER and EMPLOYEE (EMPLOYEE when none was given), carries
    the address as the e-mail checker normalised it, and the password and
    department as given.  A body whose role is not one of the five, or
    whose address the checker refuses, is rejected with an error at [role],
    respectively at [email]. *)
Theorem validated_registration_fields (i : UserRegister.input) :
  (∀ x, UserRegister.validate i = inr x →
     UserRegister.role x ∈ RoleType
     ∧ (UserRegister.in_role i = None → UserRegister.role x = "EMPLOYEE")
     ∧ (∃ e, UserRegister.in_email i = Some e
             ∧ validate_email e = Some (UserRegister.email x))
     ∧ UserRegister.in_password i = Some (UserRegister.password x)
     ∧ UserRegister.department_id x = UserRegister.in_department_id i)
  ∧ (∀ r, UserRegister.in_role i = Some r → r ∉ RoleType →
       ∃ errs, UserRegister.validate i = inl errs
               ∧ mkError "literal_error" [Key "role"] ∈ errs)
  ∧ (∀ e, UserRegister.in_email i = Some e → validate_email e = None →
       ∃ errs, UserRegister.validate i = inl errs
               ∧ mkError "value_error" [Key "email"] ∈ errs).
Proof.
  split; [|split].
  - unfold UserRegister.validate. intros x Hx. invert_ap. simpl.
    repeat split.
    + destruct (UserRegister.in_role i) as [r|].
      * match goal with
        | Hl : literal _ _ _ = inr _ |- _ => apply literal_inr in Hl as [-> ?]
        end. done.
      * simplify_eq. by apply (bool_decide_unpack _).
    + intros Hr. rewrite Hr in *. by simplify_eq.
    + destruct (UserRegister.in_email i) as [e|]; [|done].
      exists e. split; [done|].
      match goal with
      | He : email_str _ _ = inr _ |- _ =>
          unfold email_str in He; destruct (validate_email e); by simplify_eq
      end.
    + destruct (UserRegister.in_password i); simpl in *; by simplify_eq.
  - intros r Hr Hbad. apply errors_of_elem. unfold UserRegister.validate.
    rewrite !errors_of_ap, Hr, literal_inl by done.
    rewrite !elem_of_app. left. right. left.
  - intros e He Hbad. apply errors_of_elem. unfold UserRegister.validate.
    rewrite !errors_of_ap, He. unfold email_str. rewrite Hbad.
    rewrite !elem_of_app. left. left. left. right. left.
Qed.

End registration_fields_facts.

(** ** The shape of the stored tasks *)

Lemma update_one_keeps (P : doc → Prop) (query : doc) (u : update)
    (c c' : collection) (n : nat) :
  update_one query u c = Some (n, c') →
  (∀ d d', P d → apply_update u d = Some d' → P d') →
  (∀ s, s ∈ c → P s.2) → ∀ s, s ∈ c' → P s.2.
Proof.
  intros Hu Hstep. revert n c' Hu.
  induction c as [|x c IH]; intros n c' Hu Hc s Hs; simpl in Hu.
  - injection Hu as <- <-. by apply elem_of_nil in Hs.
  - destruct (matches query (to_dict x)).
    + destruct (apply_update u x.2) as [d'|] eqn:Hd; [|done].
      simpl in Hu. injection Hu as <- <-.
      apply elem_of_cons in Hs as [->|Hs].
      * simpl. eapply Hstep; [|done]. apply Hc. left.
      * apply Hc. by right.
    + destruct (update_one query u c) as [[m c'']|] eqn:Hr; [|done].
      simpl in Hu. injection Hu as <- <-.
      apply elem_of_cons in Hs as [->|Hs].
      * apply Hc. left.
      * eapply IH; [done| |done]. intros y Hy. apply Hc. by right.
Qed.

Lemma task_ok_set_status (status : string) (v : value) (d : doc) :
  status ∈ TaskStatus → task_ok d →
  task_ok ({[ "status" := VStr status; "updated_at" := v ]} ∪ d).
Proof.
  intros Hs (_ & (p & Hp & Hd) & (us & Hus)). split; [|split].
  - exists status. split; [done|]. by apply union_lookup_set.
  - exists p. split; [done|]. by rewrite union_lookup_frame.
  - exists us. by rewrite union_lookup_frame.
Qed.

Lemma task_ok_push (v : value) (e : subdoc) (d d' : doc) :
  task_ok d →
  apply_update {| op_set := {[ "updated_at" := v ]};
                  op_push := Some ("updates", e) |} d = Some d' →
  task_ok d'.
Proof.
  intros ((st & Hst & Hd) & (p & Hp & Hpd) & (us & Hus)).
  unfold apply_update, apply_push. cbn [op_push op_set]. rewrite Hus. simpl.
  intros [= <-]. split; [|split].
  - exists st. split; [done|].
    rewrite union_lookup_frame by done. by rewrite lookup_insert_ne.
  - exists p. split; [done|].
    rewrite union_lookup_frame by done. by rewrite lookup_insert_ne.
  - exists (us ++ [e]). rewrite union_lookup_frame by done.
    apply lookup_insert_eq.
Qed.

Lemma validated_task_doc_ok `{Collaborators} (i : Task.input) (x : Task.t)
    (w : World) :
  Task.validate i = inr x → task_ok (created_task_doc x w).
Proof.
  unfold Task.validate. intros Hx. invert_ap. split; [|split].
  - eexists. split; [|reflexivity]. simpl.
    destruct (Task.in_status i) as [s|].
    + match goal with
      | Hl : literal _ _ _ = inr _ |- _ => apply literal_inr in Hl as [-> ?]
      end. done.
    + simplify_eq. by apply (bool_decide_unpack _).
  - eexists. split; [|reflexivity]. simpl.
    destruct (Task.in_progress i) as [p|].
    + match goal with
      | Hg : ge_le _ _ _ _ = inr _ |- _ => apply ge_le_inr_inv in Hg as [-> ?]
      end. lia.
    + simplify_eq. lia.
  - by eexists.
Qed.

Lemma tasks_ok_same_tasks (w w' : World) :
  coll "task" w' = coll "task" w → tasks_ok w → tasks_ok w'.
Proof. unfold tasks_ok. by intros ->. Qed.

Section task_shape_facts.
Context `{Collaborators}.

Lemma set_task_status_keeps_tasks_ok (task_id status : string) (w : World) :
  tasks_ok w → tasks_ok (set_task_status task_id status w).2.
Proof.
  intros Hw.
  destruct (decide (status ∈ ["PENDING"; "IN_PROGRESS"; "COMPLETED"]))
    as [Hs|Hs].
  - rewrite set_task_status_valid by done.
    destruct (parse_object_id task_id) as [o|]; [|done].
    destruct (update_one _ _ _) as [[n c]|] eqn:Hu.
    + assert (Hc : ∀ s, s ∈ c → task_ok s.2).
      { eapply update_one_keeps; [exact Hu| |exact Hw].
        intros d d' Hd. unfold apply_update, apply_push. cbn [op_push op_set].
        simpl. intros [= <-]. by apply task_ok_set_status. }
      destruct n; cbn [snd]; intros s; unfold set_coll, tick;
        rewrite coll_written; apply Hc.
    + by apply (tasks_ok_same_tasks w).
  - by rewrite set_task_status_invalid.
Qed.

Lemma add_task_update_keeps_tasks_ok (task_id : string)
    (update : TaskUpdateEntry.t) (w : World) :
  tasks_ok w → tasks_ok (add_task_update task_id update w).2.
Proof.
  intros Hw. destruct (parse_object_id task_id) as [o|] eqn:Hp.
  - rewrite (add_task_update_run _ _ _ o) by done.
    destruct (update_one _ _ _) as [[n c]|] eqn:Hu.
    + assert (Hc : ∀ s, s ∈ c → task_ok s.2).
      { eapply update_one_keeps; [exact Hu| |exact Hw].
        intros d d' Hd. by apply task_ok_push. }
      destruct n; cbn [snd]; intros s; rewrite coll_written; apply Hc.
    + by apply (tasks_ok_same_tasks w).
  - destruct (add_task_update_bad_id task_id update w Hp) as [_ Hdb].
    apply (tasks_ok_same_tasks w); [|done]. unfold coll. by rewrite Hdb.
Qed.

(** X13. Where every stored task has a status of the three, a progress
    from 0 to 100 and a list of updates, it is still so after any request
    that writes to the store: creating a task from a request body, adding an
    update from a request body, setting a status, registering a user and
    creating a department, whether the request succeeds or fails. *)
Theorem requests_keep_tasks_well_formed (w : World) :
  tasks_ok w →
  (∀ body, tasks_ok (post_tasks body w).2)
  ∧ (∀ task_id body, tasks_ok (post_tasks_update task_id body w).2)
  ∧ (∀ task_id status, tasks_ok (set_task_status task_id status w).2)
  ∧ (∀ body, tasks_ok (post_auth_register body w).2)
  ∧ (∀ body, tasks_ok (post_departments body w).2).
Proof.
  intros Hw. split; [|split; [|split; [|split]]].
  - intros body. unfold post_tasks, with_body.
    destruct (Task.validate body) as [errs|x] eqn:Hv; [done|].
    rewrite create_task_run. cbn [snd]. intros s. rewrite coll_written.
    intros [Hs|Hs]%elem_of_app; [by apply Hw|].
    apply list_elem_of_singleton in Hs as ->. by eapply validated_task_doc_ok.
  - intros task_id body. unfold post_tasks_update, with_body.
    destruct (TaskUpdateEntry.validate body); [done|].
    by apply add_task_update_keeps_tasks_ok.
  - intros task_id status. by apply set_task_status_keeps_tasks_ok.
  - intros body. unfold post_auth_register, with_body.
    destruct (UserRegister.validate body) as [errs|x]; [done|].
    destruct (decide (is_Some (user_with_email (UserRegister.email x)
                                 (coll "user" w)))) as [Ht|Ht].
    + rewrite register_conflict by by apply user_with_email_taken. done.
    + rewrite register_fresh by by rewrite <-user_with_email_taken.
      apply (tasks_ok_same_tasks w); [|done]. cbn [snd].
      by rewrite coll_written_other.
  - intros body. unfold post_departments, with_body.
    destruct (Department.validate body) as [errs|x]; [done|].
    rewrite create_department_run.
    apply (tasks_ok_same_tasks w); [|done]. cbn [snd].
    by rewrite coll_written_other.
Qed.

End task_shape_facts.

(** ** The counts of the overview *)

Lemma count_status_step (st : string) (s : ObjectId * doc) (c : collection) :
  count_status st (s :: c) =
    (if decide (s.2 !! "status" = Some (VStr st)) then 1 else 0)
      + count_status st c.
Proof.
  unfold count_status. rewrite filter_cons. by destruct (decide _).
Qed.


Lemma count_status_total (c : collection) :
  (∀ s, s ∈ c → task_ok s.2) →
  count_status "COMPLETED" c + count_status "IN_PROGRESS" c
    + count_status "PENDING" c = length c.
Proof.
  induction c as [|s c IH]; intros Hc; [done|].
  rewrite !count_status_step. simpl.
  assert (Hs : task_ok s.2) by (apply Hc; left).
  destruct Hs as ((st & Hst & Hd) & _).
  assert (IH' := IH (λ y Hy, Hc y (list_elem_of_further _ _ _ Hy))).
  unfold TaskStatus in Hst.
  repeat destruct (decide _); try lia; try congruence.
  exfalso. rewrite Hd in *.
  repeat (apply elem_of_cons in Hst as [->|Hst]; [congruence|]).
  by apply elem_of_nil in Hst.
Qed.



(** ** The diagnostic route *)

Lemma substring_length_le (n m : nat) (s : string) :
  (String.length (String.substring n m s) ≤ m)%nat.
Proof.
  revert n m. induction s as [|a s IH]; intros [|n] [|m]; simpl; try lia.
  - specialize (IH 0 m). lia.
  - apply (IH n 0).
  - apply (IH n (S m)).
Qed.

Lemma string_app_length (s1 s2 : string) :
  String.length (s1 +:+ s2) = (String.length s1 + String.length s2)%nat.
Proof. induction s1 as [|a s1 IH]; simpl; [done|]. by rewrite IH. Qed.

Lemma test_database_url (handle : option Database)
    (getenv : string → option string) :
  database_url (test_database handle getenv)
    = Some (if truthy (getenv "DATABASE_URL") then "✅ Set" else "❌ Not Set").
Proof. by destruct handle as [[? [|]]|]. Qed.

Lemma test_database_name (handle : option Database)
    (getenv : string → option string) :
  database_name (test_database handle getenv)
    = Some (if truthy (getenv "DATABASE_NAME") then "✅ Set" else "❌ Not Set").
Proof. by destruct handle as [[? [|]]|]. Qed.

Lemma set_iff_non_empty (x : option string) :
  Some (if truthy x then "✅ Set" else "❌ Not Set") = Some "✅ Set"
  ↔ ∃ v, x = Some v ∧ v ≠ "".
Proof.
  destruct x as [[|a v]|]; simpl.
  - split; [done|]. by intros (v & [= <-] & Hv).
  - split; [|done]. intros _. by eexists.
  - split; [done|]. by intros (v & [=] & _).
Qed.

Lemma not_set_iff_empty (x : option string) :
  Some (if truthy x then "✅ Set" else "❌ Not Set") = Some "❌ Not Set"
  ↔ x = None ∨ x = Some "".
Proof.
  destruct x as [[|a v]|]; simpl.
  - split; [by right|done].
  - split; [done|]. by intros [|].
  - split; [by left|done].
Qed.

(** X15. Of the diagnostic report, [database_url] and [database_name] say
    only whether the environment variables DATABASE_URL and DATABASE_NAME
    are set to a non-empty value: they are the same with and without a
    database handle, whatever the handle's name is.  The report never keeps
    the initial "Not Available" status, and says "Connected" exactly when
    there is a handle. *)
Theorem test_database_reports_the_environment
    (handle : option Database) (getenv : string → option string) :
  let r := test_database handle getenv in
  (∀ handle', database_url (test_database handle' getenv) = database_url r
              ∧ database_name (test_database handle' getenv) = database_name r)
  ∧ (database_url r = Some "✅ Set" ↔
       ∃ v, getenv "DATABASE_URL" = Some v ∧ v ≠ "")
  ∧ (database_url r = Some "❌ Not Set" ↔
       getenv "DATABASE_URL" = None ∨ getenv "DATABASE_URL" = Some "")
  ∧ (database_name r = Some "✅ Set" ↔
       ∃ v, getenv "DATABASE_NAME" = Some v ∧ v ≠ "")
  ∧ database r ≠ "❌ Not Available"
  ∧ backend r = "✅ Running"
  ∧ (connection_status r = "Connected" ↔ is_Some handle).
Proof.
  intros r. unfold r. split; [|split; [|split; [|split; [|split; [|split]]]]].
  - intros handle'. by rewrite !test_database_url, !test_database_name.
  - rewrite test_database_url. apply set_iff_non_empty.
  - rewrite test_database_url. apply not_set_iff_empty.
  - rewrite test_database_name. apply set_iff_non_empty.
  - by destruct handle as [[? [|]]|].
  - by destruct handle as [[? [|]]|].
  - destruct handle as [[? [|]]|]; simpl.
    + split; [by eexists|done].
    + split; [by eexists|done].
    + split; [done|by intros [? ?]].
Qed.

(** X16. The diagnostic report lists at most ten collections: the first
    ten names the handle gives, in their order, with the status "Connected
    & Working".  When listing the names fails, no collection is reported and
    the status carries at most the first 50 characters of the failure's
    text; without a handle no collection is reported either. *)
Theorem test_database_lists_at_most_ten_collections
    (handle : option Database) (getenv : string → option string) :
  let r := test_database handle getenv in
  (length (collections r) ≤ 10)%nat
  ∧ (∀ h names, handle = Some h → list_collection_names h = inr names →
       collections r = take 10 names
       ∧ database r = "✅ Connected & Working")
  ∧ (∀ h e, handle = Some h → list_collection_names h = inl e →
       collections r = []
       ∧ database r = "⚠️  Connected but Error: " +:+ String.substring 0 50 e
       ∧ (String.length (database r)
            ≤ String.length "⚠️  Connected but Error: " + 50)%nat
       ∧ (String.length e ≤ 50 →
            database r = "⚠️  Connected but Error: " +:+ e)%nat)
  ∧ (handle = None →
       collections r = []
       ∧ database r = "⚠️  Available but not initialized").
Proof.
  intros r. split; [|split; [|split]].
  - unfold r, test_database. destruct handle as [[? [e|names]]|]; simpl; try lia.
    rewrite length_take. lia.
  - intros h names -> Hn. unfold r, test_database. by rewrite Hn.
  - intros h e -> He. unfold r, test_database. rewrite He.
    cbn [collections database set_database set_database_url
           set_database_name set_connection_status].
    split; [done|]. split; [done|]. split.
    + rewrite string_app_length.
      pose proof (substring_length_le 0 50 e). lia.
    + intros Hle. f_equal. clear -Hle.
      assert (Hsub : ∀ m s, (String.length s ≤ m)%nat →
                String.substring 0 m s = s).
      { intros m s. revert m. induction s as [|a s IH]; intros [|m] Hs;
          simpl in *; try done; try lia. f_equal. apply IH. lia. }
      by apply Hsub.
  - intros ->. done.
Qed.

(** ** These properties on the sample store *)

Section further_sample_runs.
Local Existing Instance stub.collaborators.

Lemma sample_tasks :
  coll "task" stub.world = [(stub.task_oid, stub.task_doc)].
Proof. by vm_compute. Qed.

Lemma created_task_status_can_be_set_witness :
  (create_task stub.a_task stub.world).1
    = inr (Id "00000000000000000000000d").
Proof.
  destruct (created_task_status_can_be_set stub.a_task "COMPLETED" stub.world)
    as [Hid _].
  - reflexivity.
  - intros s Hs. rewrite sample_tasks in Hs.
    apply list_elem_of_singleton in Hs as ->. by vm_compute.
  - by apply (bool_decide_unpack _).
  - exact Hid.
Defined.

Lemma add_task_update_twice_keeps_call_order_witness :
  (add_task_update stub.task_id stub.an_update stub.world).1
    = inr (Message "Update added").
Proof.
  destruct (add_task_update_twice_keeps_call_order stub.task_id
              stub.an_update stub.an_update stub.world stub.task_oid [] []
              stub.task_doc []) as [Hfirst _].
  - reflexivity.
  - apply sample_tasks.
  - intros s Hs. by apply elem_of_nil in Hs.
  - by vm_compute.
  - exact Hfirst.
Defined.

Lemma nobody_registered (e : string) :
  ¬ email_taken e (coll "user" stub.empty_world).
Proof. intros (s & Hs & _). by apply elem_of_nil in Hs. Qed.

Lemma registered_user_can_log_in_witness :
  (register stub.ann stub.empty_world).1
    = inr (IdMessage "000000000000000000000003" "Registered successfully").
Proof.
  destruct (registered_user_can_log_in stub.ann stub.empty_world)
    as [Hid _].
  - apply nobody_registered.
  - reflexivity.
  - exact Hid.
Defined.

Lemma registered_user_is_listed_witness :
  public_user (stub.object_id 3, registered_doc stub.ann stub.empty_world)
    !! "password_hash" = None.
Proof.
  destruct (registered_user_is_listed stub.ann stub.empty_world)
    as (_ & _ & _ & Hhash & _).
  - apply nobody_registered.
  - exact Hhash.
Defined.

Lemma sample_tasks_ok : tasks_ok stub.world.
Proof.
  intros s Hs. rewrite sample_tasks in Hs.
  apply list_elem_of_singleton in Hs as ->. split; [|split].
  - exists "PENDING". split; [by apply (bool_decide_unpack _)|by vm_compute].
  - exists 100%Z. split; [lia|by vm_compute].
  - exists []. by vm_compute.
Qed.

Lemma requests_keep_tasks_well_formed_witness :
  tasks_ok stub.world
  ∧ length (coll "task" stub.world) = 1
  ∧ (set_task_status stub.task_id "COMPLETED" stub.world).1
    = inr (Message "Status updated")
  ∧ length (coll "task"
              (set_task_status stub.task_id "COMPLETED" stub.world).2) = 1
  ∧ tasks_ok (set_task_status stub.task_id "COMPLETED" stub.world).2
  ∧ (post_tasks_update stub.task_id
       (TaskUpdateEntry.mkInput (Some "u1") None (Some 40%Z) None)
       stub.world).1
    = inr (Message "Update added")
  ∧ tasks_ok
      (post_tasks_update stub.task_id
         (TaskUpdateEntry.mkInput (Some "u1") None (Some 40%Z) None)
         stub.world).2.
Proof.
  destruct (requests_keep_tasks_well_formed stub.world sample_tasks_ok)
    as (_ & Hadd & Hset & _).
  split; [exact sample_tasks_ok|]. split; [by vm_compute|].
  split; [by vm_compute|]. split; [by vm_compute|].
  split; [apply Hset|]. split; [by vm_compute|apply Hadd].
Defined.

Lemma analytics_overview_counts_and_rate_witness :
  analytics_overview stub.busy_world
    = (inr (Analytics
         {| users := 2; tasks := 3; completed := 1; in_progress := 0;
            pending := 2;
            completion_rate := S754_finite false 4691249611844266 (-47) |}),
       stub.busy_world)
  ∧ near_percentage (S754_finite false 4691249611844266 (-47)) 1 3.
Proof.
  destruct (analytics_overview_counts_and_rate stub.busy_world)
    as (Hrun & _ & _ & Hnear).
  split.
  - rewrite Hrun. by vm_compute.
  - assert (Hrate := Hnear ltac:(vm_compute; lia)).
    vm_compute in Hrate. vm_compute. exact Hrate.
Defined.

End further_sample_runs.
